(** * process-cache: the job cache lifecycle controller

  A shallow embedding of [src/process/job.ts] (the abstract class [Job])
  and of the Sequelize model declared in [src/models/process_cache.ts],
  with the properties of the controller proved over it.

  Layout:
  - [ProcessCache]: the cache record, its attribute definition and the
    options handed to [ProcessCache.init], with the insert semantics the
    ORM derives from them;
  - [JsObject]: plain JavaScript objects used as maps, including what a
    property read finds on [Object.prototype];
  - [Promise]: how a promise ends (fulfilled, rejected, or never settled);
  - [Job]: the controller, parametric in its collaborators
    ([ProcessManager], [Machine]) and in the subclass hooks;
  - [Store]: a relational store for the collaborators, used to run the
    controller on concrete inputs. *)

From Stdlib Require Import ZArith String List Lia.
From stdpp Require Import base option list gmap strings.

Open Scope string_scope.
Open Scope list_scope.
Open Scope Z_scope.

(** ** The cache record and its table definition *)

Module ProcessCache.

(** [class ProcessCache extends Sequelize.Model]: the eight columns. The
    class declares [machine] as a number while its column is a STRING; the
    column type is what a stored row carries. *)
Record t : Type := Build {
  id : Z;
  process : Z;
  job : Z;
  machine : string;
  key : string;
  value : string;
  createdAt : Z;
  updatedAt : Z
}.

(** Column values, and the three [Sequelize.DataTypes] in use. *)
Inductive Value : Type :=
| VNull
| VInt (z : Z)
| VStr (s : string).

Inductive DataType : Type := INTEGER | STRING | TEXT.

(** One entry of a [Sequelize.ModelAttributes] object. Options left out in
    the source take the ORM's defaults ([primaryKey], [autoIncrement]:
    false; no [defaultValue]). *)
Record Attribute : Type := {
  type : DataType;
  primaryKey : bool;
  allowNull : bool;
  autoIncrement : bool;
  defaultValue : option Value
}.

Definition ProcessCacheAttributeDefinition : list (string * Attribute) :=
  [ ("id", {| type := INTEGER; primaryKey := true; allowNull := false;
              autoIncrement := true; defaultValue := None |});
    ("process", {| type := INTEGER; primaryKey := false; allowNull := false;
                   autoIncrement := false; defaultValue := Some (VInt 0) |});
    ("job", {| type := INTEGER; primaryKey := false; allowNull := false;
               autoIncrement := false; defaultValue := Some (VInt 0) |});
    ("machine", {| type := STRING; primaryKey := false; allowNull := false;
                   autoIncrement := false; defaultValue := Some (VStr "") |});
    ("key", {| type := STRING; primaryKey := false; allowNull := false;
               autoIncrement := false; defaultValue := Some (VStr "") |});
    ("value", {| type := TEXT; primaryKey := false; allowNull := false;
                 autoIncrement := false; defaultValue := None |});
    ("createdAt", {| type := INTEGER; primaryKey := false; allowNull := false;
                     autoIncrement := false; defaultValue := Some (VInt 0) |});
    ("updatedAt", {| type := INTEGER; primaryKey := false; allowNull := false;
                     autoIncrement := false; defaultValue := Some (VInt 0) |}) ].

(** The options object of [ProcessCache.init] ([sequelize] and [modelName]
    carry no behaviour here). *)
Record Index : Type := { unique : bool; fields : list string }.

Record InitOptions : Type := {
  tableName : string;
  timestamps : bool;
  indexes : list Index
}.

Definition init_options : InitOptions :=
  {| tableName := "process_cache";
     timestamps := false;
     indexes := [ {| unique := false; fields := ["process"] |};
                  {| unique := false; fields := ["job"] |};
                  {| unique := false; fields := ["key"] |};
                  {| unique := false; fields := ["machine"] |} ] |}.

(** *** What the ORM does with these on an insert

    [Model.create(values)]: every column takes the supplied value, else the
    next sequence number when it auto-increments, else its [defaultValue];
    a column still empty is NULL, and so is one supplied as null, which
    [allowNull: false] refuses. An auto-incrementing column supplied with a
    falsy value (null, 0, the empty string) counts as not supplied: the
    insert query leaves it to the sequence. A value is not checked against
    the type of its column. With [timestamps] on, the ORM writes the clock
    into [updatedAt], and into [createdAt] unless the row already carries a
    non-zero one. *)

Definition Row : Type := list (string * Value).

Fixpoint lookup_col (c : string) (r : Row) : option Value :=
  match r with
  | [] => None
  | (c', v) :: r' => if String.eqb c c' then Some v else lookup_col c r'
  end.

(** JavaScript's [!v] on a column value. *)
Definition falsy (v : Value) : bool :=
  match v with
  | VNull => true
  | VInt z => Z.eqb z 0
  | VStr s => String.eqb s ""
  end.

(** The value of a column the caller has not supplied. *)
Definition absent_column (next_id : Z) (col : string * Attribute)
  : option (string * Value) :=
  if autoIncrement (snd col) then Some (fst col, VInt next_id)
  else match defaultValue (snd col) with
       | Some d => Some (fst col, d)
       | None => if allowNull (snd col) then Some (fst col, VNull) else None
       end.

Definition fill_column (supplied : Row) (next_id : Z) (col : string * Attribute)
  : option (string * Value) :=
  match lookup_col (fst col) supplied with
  | Some v =>
      if autoIncrement (snd col) && falsy v then absent_column next_id col
      else match v with
           | VNull => if allowNull (snd col) then Some (fst col, VNull) else None
           | _ => Some (fst col, v)
           end
  | None => absent_column next_id col
  end.

Fixpoint fill_columns (defs : list (string * Attribute)) (supplied : Row) (next_id : Z)
  : option Row :=
  match defs with
  | [] => Some []
  | col :: defs' =>
      match fill_column supplied next_id col, fill_columns defs' supplied next_id with
      | Some cv, Some r => Some (cv :: r)
      | _, _ => None
      end
  end.

Fixpoint set_col (c : string) (v : Value) (r : Row) : Row :=
  match r with
  | [] => []
  | (c', v') :: r' => if String.eqb c c' then (c', v) :: r' else (c', v') :: set_col c v r'
  end.

Definition stamp (opts : InitOptions) (now : Z) (r : Row) : Row :=
  if timestamps opts then
    let r1 := set_col "updatedAt" (VInt now) r in
    match lookup_col "createdAt" r1 with
    | Some (VInt 0) | None => set_col "createdAt" (VInt now) r1
    | Some _ => r1
    end
  else r.

Definition int_col (c : string) (r : Row) : option Z :=
  match lookup_col c r with Some (VInt z) => Some z | _ => None end.

Definition str_col (c : string) (r : Row) : option string :=
  match lookup_col c r with Some (VStr s) => Some s | _ => None end.

(** A row read as an instance of the class, whose fields are declared
    [number] and [string]. The insert checks no value against the type of
    its column ([insert] below stores a string in an INTEGER column as it
    is); such a row is no instance of the class as declared, and there is
    no record to read it as. *)
Definition of_row (r : Row) : option t :=
  match int_col "id" r, int_col "process" r, int_col "job" r, str_col "machine" r,
        str_col "key" r, str_col "value" r, int_col "createdAt" r, int_col "updatedAt" r with
  | Some i, Some p, Some j, Some m, Some k, Some v, Some c, Some u =>
      Some (Build i p j m k v c u)
  | _, _, _, _, _, _, _, _ => None
  end.

Definition project (fs : list string) (r : Row) : list (option Value) :=
  map (fun f => lookup_col f r) fs.

Definition to_row (x : t) : Row :=
  [ ("id", VInt (id x)); ("process", VInt (process x)); ("job", VInt (job x));
    ("machine", VStr (machine x)); ("key", VStr (key x)); ("value", VStr (value x));
    ("createdAt", VInt (createdAt x)); ("updatedAt", VInt (updatedAt x)) ].

(** A unique index refuses a row that agrees with a stored one on all of
    the index's fields; the primary key is such an index. *)
Definition primary_index (defs : list (string * Attribute)) : Index :=
  {| unique := true;
     fields := map fst (List.filter (fun col => primaryKey (snd col)) defs) |}.

Definition same_value (a b : option Value) : bool :=
  match a, b with
  | Some (VInt x), Some (VInt y) => Z.eqb x y
  | Some (VStr x), Some (VStr y) => String.eqb x y
  | _, _ => false
  end.

Fixpoint same_values (xs ys : list (option Value)) : bool :=
  match xs, ys with
  | [], [] => true
  | x :: xs', y :: ys' => same_value x y && same_values xs' ys'
  | _, _ => false
  end.

Definition violates (ix : Index) (table : list t) (r : Row) : bool :=
  unique ix &&
  existsb (fun x => same_values (project (fields ix) (to_row x)) (project (fields ix) r)) table.

Definition build (defs : list (string * Attribute)) (opts : InitOptions)
    (now next_id : Z) (supplied : Row) : option Row :=
  stamp opts now <$> fill_columns defs supplied next_id.

(** The insert itself: the row that is stored, or none when a column is
    left NULL or a unique index is violated. *)
Definition insert (defs : list (string * Attribute)) (opts : InitOptions)
    (table : list t) (now next_id : Z) (supplied : Row) : option Row :=
  match build defs opts now next_id supplied with
  | Some r =>
      if existsb (fun ix => violates ix table r) (primary_index defs :: indexes opts) then None
      else Some r
  | None => None
  end.

(** [ProcessCache.create(values)], with the stored row as the instance of
    the class it returns. *)
Definition create (defs : list (string * Attribute)) (opts : InitOptions)
    (table : list t) (now next_id : Z) (supplied : Row) : option t :=
  match insert defs opts table now next_id supplied with
  | Some r => of_row r
  | None => None
  end.

End ProcessCache.

(** ** Plain objects used as maps

    [cacheTree] and [cacheResults] are object literals [{}]. Their own
    properties form a finite map; a property read that finds no own property
    goes on to [Object.prototype], which every object literal inherits from.
    For the names below the read yields a function (or, for [__proto__], the
    prototype object itself), so [typeof o[k]] is not ['undefined'] although
    nothing was ever stored under [k]. *)

Module JsObject.

Definition ObjectPrototype : list string :=
  [ "constructor"; "__defineGetter__"; "__defineSetter__"; "hasOwnProperty";
    "__lookupGetter__"; "__lookupSetter__"; "isPrototypeOf"; "propertyIsEnumerable";
    "toString"; "valueOf"; "__proto__"; "toLocaleString" ].

Definition inherited (k : string) : bool := bool_decide (k ∈ ObjectPrototype).

Inductive Property (V : Type) : Type :=
| Own (v : V)
| Inherited
| Undefined.
Arguments Own {V} v.
Arguments Inherited {V}.
Arguments Undefined {V}.

(** [o[k]] *)
Definition get {V : Type} (o : gmap string V) (k : string) : Property V :=
  match o !! k with
  | Some v => Own v
  | None => if inherited k then Inherited else Undefined
  end.

(** [typeof o[k] == 'undefined'] *)
Definition is_undefined {V : Type} (o : gmap string V) (k : string) : bool :=
  match get o k with Undefined => true | _ => false end.

End JsObject.

(** ** Promises *)

Module Promise.

(** What a JavaScript [Error] carries that matters here. *)
Inductive Error : Type :=
| TypeError (message : string)
| Failure (message : string).

(** The fate of a promise: it fulfils with a value, rejects with an error,
    or is never settled. *)
Inductive t (A : Type) : Type :=
| Fulfilled (a : A)
| Rejected (e : Error)
| Pending.
Arguments Fulfilled {A} a.
Arguments Rejected {A} e.
Arguments Pending {A}.

Definition is_fulfilled {A : Type} (p : t A) : bool :=
  match p with Fulfilled _ => true | _ => false end.

Definition is_rejected {A : Type} (p : t A) : bool :=
  match p with Rejected _ => true | _ => false end.

End Promise.

(** ** The controller: [abstract class Job] *)

Module Job.
Import Promise.

(** A call that leaves the controller, as seen by an observer of the run:
    collaborator methods and the two subclass hooks. *)
Inductive Event : Type :=
| ProcessManagerLoad
| MachineLoad
| CreateProcess (processName : string)
| CreateJob (jobName : string)
| MachineCreateLog (message : string)
| MachineCreateCache (key value : string)
| MachineGetCache (key : string)
| MachineHasCacheKey (key : string)
| MachineHasCache
| MachineGetFullCache
| OnCacheExist
| OnCacheEmpty.



Definition is_hook (e : Event) : bool :=
  match e with OnCacheExist | OnCacheEmpty => true | _ => false end.

Definition count (f : Event -> bool) (tr : list Event) : nat :=
  length (List.filter f tr).

Section Controller.

(** The models [Process], [ProcessJob], [ProcessJobLog] and the enumeration
    [ProcessLogTypes] are imported by [job.ts] from other modules and used
    only as opaque values; [W] is the state of everything behind the database
    driver. *)
Context {Process ProcessJobModel ProcessJobLogModel ProcessLogTypes W : Type}.

(** The fields of a [Job]. [machine] and [processManager] are handles on the
    same database; the machine is known by the name it was built with. *)
Record t : Type := Build {
  machine : string;
  jobName : string;
  processName : string;
  processJob : option ProcessJobModel;
  process : option Process;
  cacheResults : gmap Z ProcessCache.t;
  cacheTree : gmap string (list ProcessCache.t);
  loaded : bool
}.

(** [constructor(database, processName, jobName, machineName)] *)
Definition new (processName jobName machineName : string) : t :=
  {| machine := machineName;
     jobName := jobName;
     processName := processName;
     processJob := None;
     process := None;
     cacheResults := ∅;
     cacheTree := ∅;
     loaded := false |}.

Definition set_process (p : option Process) (j : t) : t :=
  Build (machine j) (jobName j) (processName j) (processJob j) p
        (cacheResults j) (cacheTree j) (loaded j).

Definition set_processJob (pj : option ProcessJobModel) (j : t) : t :=
  Build (machine j) (jobName j) (processName j) pj (process j)
        (cacheResults j) (cacheTree j) (loaded j).

Definition set_cacheResults (m : gmap Z ProcessCache.t) (j : t) : t :=
  Build (machine j) (jobName j) (processName j) (processJob j) (process j)
        m (cacheTree j) (loaded j).

Definition set_cacheTree (m : gmap string (list ProcessCache.t)) (j : t) : t :=
  Build (machine j) (jobName j) (processName j) (processJob j) (process j)
        (cacheResults j) m (loaded j).

Definition set_loaded (b : bool) (j : t) : t :=
  Build (machine j) (jobName j) (processName j) (processJob j) (process j)
        (cacheResults j) (cacheTree j) b.

(** The collaborators. Each method takes the state of the world and returns
    how its promise ends together with the world it leaves. The identities
    handed to [Machine] are the fields as they are: the casts
    [this.process as ProcessModel] do nothing at run time, so [null] goes
    through. *)
Record ProcessManager : Type := {
  ProcessManager_load : W -> Promise.t unit * W;
  ProcessManager_createProcess : string -> W -> Promise.t Process * W;
  ProcessManager_createJob : Process -> string -> W -> Promise.t ProcessJobModel * W
}.

Record Machine : Type := {
  Machine_load : string -> W -> Promise.t unit * W;
  Machine_createLog :
    string -> option Process -> option ProcessJobModel -> string -> ProcessLogTypes ->
    W -> Promise.t ProcessJobLogModel * W;
  Machine_createCache :
    string -> option Process -> option ProcessJobModel -> string -> string ->
    W -> Promise.t ProcessCache.t * W;
  Machine_getCache :
    string -> option Process -> option ProcessJobModel -> string ->
    W -> Promise.t (list ProcessCache.t) * W;
  Machine_hasCacheKey :
    string -> option Process -> option ProcessJobModel -> string ->
    W -> Promise.t bool * W;
  Machine_hasCache :
    string -> option Process -> option ProcessJobModel -> W -> Promise.t bool * W;
  Machine_getFullCache :
    string -> option Process -> option ProcessJobModel ->
    W -> Promise.t (list ProcessCache.t) * W
}.

(** The abstract methods. A subclass reads and writes the protected fields
    and may reach the database. *)
Record Hooks : Type := {
  onCacheExist : t -> W -> Promise.t unit * (t * W);
  onCacheEmpty : t -> W -> Promise.t unit * (t * W)
}.

(** *** Running code: the instance, the world, and the calls made so far *)

Record State : Type := {
  job : t;
  world : W;
  trace : list Event
}.

Definition Async (A : Type) : Type := State -> Promise.t A * State.

Definition ret {A : Type} (a : A) : Async A := fun s => (Fulfilled a, s).

(** [const x = await m; k x] inside an [async] function: a rejection of [m]
    is thrown at the [await] and ends the function; if [m] never settles the
    function never resumes. *)
Definition bind {A B : Type} (m : Async A) (k : A -> Async B) : Async B :=
  fun s =>
    match m s with
    | (Fulfilled a, s') => k a s'
    | (Rejected e, s') => (Rejected e, s')
    | (Pending, s') => (Pending, s')
    end.

Definition throw {A : Type} (e : Error) : Async A := fun s => (Rejected e, s).

(** [new Promise((resolve) => ...)] around a body that ends in [resolve(a)]:
    the executor takes no [reject], and neither an [async] executor nor a
    [then] callback passes its own failure on to the promise being built.
    Such a promise fulfils when the body reaches [resolve], and is otherwise
    never settled. *)
Definition resolve_only {A : Type} (body : Async A) : Async A :=
  fun s =>
    match body s with
    | (Fulfilled a, s') => (Fulfilled a, s')
    | (_, s') => (Pending, s')
    end.

Definition this {A : Type} (k : t -> Async A) : Async A := fun s => k (job s) s.

Definition assign (f : t -> t) : Async unit :=
  fun s => (Fulfilled tt, {| job := f (job s); world := world s; trace := trace s |}).

Definition call {A : Type} (ev : Event) (f : W -> Promise.t A * W) : Async A :=
  fun s =>
    let '(p, w) := f (world s) in
    (p, {| job := job s; world := w; trace := trace s ++ [ev] |}).

Definition dispatch (ev : Event) (h : t -> W -> Promise.t unit * (t * W)) : Async unit :=
  fun s =>
    let '(p, (j, w)) := h (job s) (world s) in
    (p, {| job := j; world := w; trace := trace s ++ [ev] |}).

Notation "x <- m ;; k" := (bind m (fun x => k))
  (at level 100, m at next level, right associativity).
Notation "m ;; k" := (bind m (fun _ => k))
  (at level 100, right associativity).

(** *** The methods *)

Context (PM : ProcessManager) (M : Machine) (H : Hooks).

(** [createLog(message, logType)]; the default [ProcessLogTypes.Generic] of
    the second parameter is the caller's to fill in here. *)
Definition createLog (message : string) (logType : ProcessLogTypes)
  : Async ProcessJobLogModel :=
  this (fun j =>
    call (MachineCreateLog message)
         (Machine_createLog M (machine j) (process j) (processJob j) message logType)).

(** [getCache(key)] *)
Definition getCache (key : string) : Async (list ProcessCache.t) :=
  this (fun j =>
    call (MachineGetCache key)
         (Machine_getCache M (machine j) (process j) (processJob j) key)).

(** [hasCacheKey(key)] *)
Definition hasCacheKey (key : string) : Async bool :=
  this (fun j =>
    call (MachineHasCacheKey key)
         (Machine_hasCacheKey M (machine j) (process j) (processJob j) key)).

(** [hasCache()] *)
Definition hasCache : Async bool :=
  this (fun j =>
    call MachineHasCache
         (Machine_hasCache M (machine j) (process j) (processJob j))).

(** [getFullCache()] *)
Definition getFullCache : Async (list ProcessCache.t) :=
  this (fun j =>
    call MachineGetFullCache
         (Machine_getFullCache M (machine j) (process j) (processJob j))).

(** [if (typeof this.cacheTree[key] == 'undefined') { this.cacheTree[key] = []; }] *)
Definition ensure_bucket (key : string) : Async unit :=
  this (fun j =>
    if JsObject.is_undefined (cacheTree j) key
    then assign (set_cacheTree (<[key := []]> (cacheTree j)))
    else ret tt).

(** [this.cacheTree[key].push(record)]: the array stored under [key] grows at
    its end. What a read of [key] finds on the prototype has no [push], and
    calling [undefined] throws. *)
Definition push_bucket (key : string) (record : ProcessCache.t) : Async unit :=
  this (fun j =>
    match JsObject.get (cacheTree j) key with
    | JsObject.Own bucket => assign (set_cacheTree (<[key := bucket ++ [record]]> (cacheTree j)))
    | JsObject.Inherited => throw (TypeError "this.cacheTree[...].push is not a function")
    | JsObject.Undefined => throw (TypeError "Cannot read property 'push' of undefined")
    end).

(** [this.cacheResults[record.id] = record] *)
Definition store_result (record : ProcessCache.t) : Async unit :=
  this (fun j =>
    assign (set_cacheResults (<[ProcessCache.id record := record]> (cacheResults j)))).

(** The body of the [for] loop of [syncCache], for [resultCache[i]]. *)
Definition sync_record (record : ProcessCache.t) : Async unit :=
  ensure_bucket (ProcessCache.key record) ;;
  push_bucket (ProcessCache.key record) record ;;
  store_result record.

(** [for (var i = 0; i < resultCache.length; i++) { ... }] *)
Fixpoint sync_records (resultCache : list ProcessCache.t) : Async unit :=
  match resultCache with
  | [] => ret tt
  | record :: rest => sync_record record ;; sync_records rest
  end.

(** [syncCache()] *)
Definition syncCache : Async unit :=
  resolve_only (
    assign (set_cacheResults ∅) ;;
    assign (set_cacheTree ∅) ;;
    resultCache <- getFullCache ;;
    sync_records resultCache).

(** [createCache(key, value)]: the [then] callback runs once the machine's
    promise has fulfilled, and ends in [resolve(result)]. *)
Definition createCache (key value : string) : Async ProcessCache.t :=
  resolve_only (
    result <- this (fun j =>
                call (MachineCreateCache key value)
                     (Machine_createCache M (machine j) (process j) (processJob j) key value)) ;;
    store_result result ;;
    ensure_bucket (ProcessCache.key result) ;;
    push_bucket (ProcessCache.key result) result ;;
    ret result).

(** [load()] *)
Definition load : Async unit :=
  resolve_only (
    this (fun j =>
      if loaded j then ret tt
      else
        call ProcessManagerLoad (ProcessManager_load PM) ;;
        this (fun j => call MachineLoad (Machine_load M (machine j))) ;;
        p <- this (fun j =>
               call (CreateProcess (processName j))
                    (ProcessManager_createProcess PM (processName j))) ;;
        assign (set_process (Some p)) ;;
        pj <- this (fun j =>
                call (CreateJob (jobName j))
                     (ProcessManager_createJob PM p (jobName j))) ;;
        assign (set_processJob (Some pj)) ;;
        hasCache <- hasCache ;;
        (if hasCache : bool
         then syncCache ;; dispatch OnCacheExist (onCacheExist H)
         else dispatch OnCacheEmpty (onCacheEmpty H)) ;;
        assign (set_loaded true))).

(** *** Sequences of calls on one instance *)

Inductive Op : Type :=
| Load
| SyncCache
| CreateLog (message : string) (logType : ProcessLogTypes)
| CreateCache (key value : string)
| GetCache (key : string)
| HasCacheKey (key : string)
| HasCache
| GetFullCache.

Definition exec (op : Op) (s : State) : State :=
  match op with
  | Load => snd (load s)
  | SyncCache => snd (syncCache s)
  | CreateLog message logType => snd (createLog message logType s)
  | CreateCache key value => snd (createCache key value s)
  | GetCache key => snd (getCache key s)
  | HasCacheKey key => snd (hasCacheKey key s)
  | HasCache => snd (hasCache s)
  | GetFullCache => snd (getFullCache s)
  end.

Definition exec_all (ops : list Op) (s : State) : State :=
  fold_left (fun s op => exec op s) ops s.

(** *** The index as a function of a record list

    What the loop of [syncCache] leaves when no step throws: every key is
    mapped to the records carrying it, in the order of the list, and every id
    to the last record carrying it. *)

Definition bucket_of (rs : list ProcessCache.t) (k : string) : list ProcessCache.t :=
  List.filter (fun r => bool_decide (ProcessCache.key r = k)) rs.

Definition with_id (rs : list ProcessCache.t) (i : Z) : list ProcessCache.t :=
  List.filter (fun r => bool_decide (ProcessCache.id r = i)) rs.

Definition tree_add (m : gmap string (list ProcessCache.t)) (r : ProcessCache.t)
  : gmap string (list ProcessCache.t) :=
  <[ProcessCache.key r := default [] (m !! ProcessCache.key r) ++ [r]]> m.

Definition results_add (m : gmap Z ProcessCache.t) (r : ProcessCache.t)
  : gmap Z ProcessCache.t :=
  <[ProcessCache.id r := r]> m.

Definition tree_of (rs : list ProcessCache.t) : gmap string (list ProcessCache.t) :=
  fold_left tree_add rs ∅.

Definition results_of (rs : list ProcessCache.t) : gmap Z ProcessCache.t :=
  fold_left results_add rs ∅.

Definition indexed (rs : list ProcessCache.t) (j : t) : t :=
  set_cacheTree (tree_of rs) (set_cacheResults (results_of rs) j).

Definition ordinary_keys (rs : list ProcessCache.t) : Prop :=
  Forall (fun r => JsObject.inherited (ProcessCache.key r) = false) rs.

(** A tree none of whose own keys shadows a name of the prototype. *)
Definition ordinary_tree (m : gmap string (list ProcessCache.t)) : Prop :=
  forall k, JsObject.inherited k = true -> m !! k = None.

(** *** What is asked of a subclass

    The hooks leave the two identities and the [loaded] flag as they found
    them. *)
Definition keeps_lifecycle (h : t -> W -> Promise.t unit * (t * W)) : Prop :=
  forall j w,
    process (fst (snd (h j w))) = process j
    /\ processJob (fst (snd (h j w))) = processJob j
    /\ loaded (fst (snd (h j w))) = loaded j.

Definition well_behaved : Prop :=
  keeps_lifecycle (onCacheExist H) /\ keeps_lifecycle (onCacheEmpty H).

(** The state an instance is in when the flag is up. *)
Definition identified (j : t) : Prop :=
  loaded j = true -> is_Some (process j) /\ is_Some (processJob j).

End Controller.

Arguments t : clear implicits.
Arguments ProcessManager : clear implicits.
Arguments Machine : clear implicits.
Arguments Hooks : clear implicits.
Arguments State : clear implicits.
Arguments Async : clear implicits.
Arguments Op : clear implicits.

End Job.

(** ** The collaborators over a relational store *)

Module Store.
Import Promise.

(** Modelled from the spec: the models [Process], [ProcessJob] and
    [ProcessJobLog] (src/models/process.ts, process_job.ts and
    process_job_log.ts, whose sources are missing). A process is identified
    by name, a job by name within its process; [0] is the identifier
    reserved for "unset". *)
Record Process : Type := { process_id : Z; process_name : string }.

Record ProcessJob : Type := { job_id : Z; job_process : Z; job_name : string }.

Inductive ProcessLogTypes : Type :=
| Generic
| LogType (code : Z).

Record ProcessJobLog : Type := {
  log_id : Z;
  log_process : Z;
  log_job : Z;
  log_machine : string;
  log_message : string;
  log_type : ProcessLogTypes
}.

(** The database: its tables in insertion order, the sequence of the cache
    table, the clock, and how many more requests it answers before it
    becomes unreachable ([None]: it stays reachable). *)
Record World : Type := {
  processes : list Process;
  jobs : list ProcessJob;
  logs : list ProcessJobLog;
  cache : list ProcessCache.t;
  cache_sequence : Z;
  clock : Z;
  outage : option nat
}.

Definition empty : World :=
  {| processes := []; jobs := []; logs := []; cache := [];
     cache_sequence := 1; clock := 0; outage := None |}.

Definition set_outage (o : option nat) (w : World) : World :=
  {| processes := processes w; jobs := jobs w; logs := logs w; cache := cache w;
     cache_sequence := cache_sequence w; clock := clock w; outage := o |}.

Definition set_processes (ps : list Process) (w : World) : World :=
  {| processes := ps; jobs := jobs w; logs := logs w; cache := cache w;
     cache_sequence := cache_sequence w; clock := clock w; outage := outage w |}.

Definition set_jobs (js : list ProcessJob) (w : World) : World :=
  {| processes := processes w; jobs := js; logs := logs w; cache := cache w;
     cache_sequence := cache_sequence w; clock := clock w; outage := outage w |}.

Definition set_logs (ls : list ProcessJobLog) (w : World) : World :=
  {| processes := processes w; jobs := jobs w; logs := ls; cache := cache w;
     cache_sequence := cache_sequence w; clock := clock w; outage := outage w |}.

Definition insert_cache (r : ProcessCache.t) (w : World) : World :=
  {| processes := processes w; jobs := jobs w; logs := logs w; cache := cache w ++ [r];
     cache_sequence := cache_sequence w + 1; clock := clock w; outage := outage w |}.

(** Every collaborator method is one request to the database. *)
Definition request {A : Type} (k : World -> Promise.t A * World) (w : World)
  : Promise.t A * World :=
  match outage w with
  | Some O => (Rejected (Failure "database unreachable"), w)
  | Some (S n) => k (set_outage (Some n) w)
  | None => k w
  end.

Definition process_of (p : option Process) : Z := from_option process_id 0 p.
Definition job_of (pj : option ProcessJob) : Z := from_option job_id 0 pj.

(** Modelled from the spec: [ProcessManager] (src/process/process_manager.ts,
    whose source is missing). "IdentityResolver.resolveProcess(name):
    idempotent create-or-fetch"; "resolveJob(process, name): idempotent
    create-or-fetch, scoped to process". *)
Definition createProcess (name : string) : World -> Promise.t Process * World :=
  request (fun w =>
    match List.find (fun p => String.eqb (process_name p) name) (processes w) with
    | Some p => (Fulfilled p, w)
    | None =>
        let p := {| process_id := Z.of_nat (length (processes w)) + 1; process_name := name |} in
        (Fulfilled p, set_processes (processes w ++ [p]) w)
    end).

Definition createJob (p : Process) (name : string) : World -> Promise.t ProcessJob * World :=
  request (fun w =>
    match List.find (fun j => Z.eqb (job_process j) (process_id p) && String.eqb (job_name j) name)
                    (jobs w) with
    | Some j => (Fulfilled j, w)
    | None =>
        let j := {| job_id := Z.of_nat (length (jobs w)) + 1;
                    job_process := process_id p; job_name := name |} in
        (Fulfilled j, set_jobs (jobs w ++ [j]) w)
    end).

Definition processManager : Job.ProcessManager Process ProcessJob World :=
  {| Job.ProcessManager_load := request (fun w => (Fulfilled tt, w));
     Job.ProcessManager_createProcess := createProcess;
     Job.ProcessManager_createJob := createJob |}.

(** Modelled from the spec: [Machine] (src/process/machine.ts, whose source is
    missing). "CacheStore.insert(process, job, machine, key, value)":
    the row goes through the table definition of [ProcessCache]; the queries
    are scoped to the process, the job and the machine, and answer in
    insertion order; "Logger.append(process, job, message, logType)". *)
Definition scoped (m : string) (p : option Process) (pj : option ProcessJob)
    (r : ProcessCache.t) : bool :=
  Z.eqb (ProcessCache.process r) (process_of p)
  && Z.eqb (ProcessCache.job r) (job_of pj)
  && String.eqb (ProcessCache.machine r) m.

Definition createCache (m : string) (p : option Process) (pj : option ProcessJob)
    (key value : string) : World -> Promise.t ProcessCache.t * World :=
  request (fun w =>
    match ProcessCache.create ProcessCache.ProcessCacheAttributeDefinition
            ProcessCache.init_options (cache w) (clock w) (cache_sequence w)
            [ ("process", ProcessCache.VInt (process_of p));
              ("job", ProcessCache.VInt (job_of pj));
              ("machine", ProcessCache.VStr m);
              ("key", ProcessCache.VStr key);
              ("value", ProcessCache.VStr value) ] with
    | Some r => (Fulfilled r, insert_cache r w)
    | None => (Rejected (Failure "constraint violation"), w)
    end).

Definition getFullCache (m : string) (p : option Process) (pj : option ProcessJob)
  : World -> Promise.t (list ProcessCache.t) * World :=
  request (fun w => (Fulfilled (List.filter (scoped m p pj) (cache w)), w)).

Definition matching (m : string) (p : option Process) (pj : option ProcessJob) (key : string)
    (rows : list ProcessCache.t) : list ProcessCache.t :=
  List.filter (fun r => scoped m p pj r && String.eqb (ProcessCache.key r) key) rows.

Definition getCache (m : string) (p : option Process) (pj : option ProcessJob) (key : string)
  : World -> Promise.t (list ProcessCache.t) * World :=
  request (fun w => (Fulfilled (matching m p pj key (cache w)), w)).

Definition hasCache (m : string) (p : option Process) (pj : option ProcessJob)
  : World -> Promise.t bool * World :=
  request (fun w => (Fulfilled (existsb (scoped m p pj) (cache w)), w)).

Definition hasCacheKey (m : string) (p : option Process) (pj : option ProcessJob) (key : string)
  : World -> Promise.t bool * World :=
  request (fun w =>
    (Fulfilled (existsb (fun r => scoped m p pj r && String.eqb (ProcessCache.key r) key)
                        (cache w)), w)).

Definition createLog (m : string) (p : option Process) (pj : option ProcessJob)
    (message : string) (logType : ProcessLogTypes)
  : World -> Promise.t ProcessJobLog * World :=
  request (fun w =>
    let l := {| log_id := Z.of_nat (length (logs w)) + 1; log_process := process_of p;
                log_job := job_of pj; log_machine := m; log_message := message;
                log_type := logType |} in
    (Fulfilled l, set_logs (logs w ++ [l]) w)).

Definition machine : Job.Machine Process ProcessJob ProcessJobLog ProcessLogTypes World :=
  {| Job.Machine_load := fun _ => request (fun w => (Fulfilled tt, w));
     Job.Machine_createLog := createLog;
     Job.Machine_createCache := createCache;
     Job.Machine_getCache := getCache;
     Job.Machine_hasCacheKey := hasCacheKey;
     Job.Machine_hasCache := hasCache;
     Job.Machine_getFullCache := getFullCache |}.

(** A subclass whose hooks do nothing. *)
Definition idle : Job.Hooks Process ProcessJob World :=
  {| Job.onCacheExist := fun j w => (Fulfilled tt, (j, w));
     Job.onCacheEmpty := fun j w => (Fulfilled tt, (j, w)) |}.

Definition start (j : Job.t Process ProcessJob) (w : World)
  : Job.State Process ProcessJob World :=
  {| Job.job := j; Job.world := w; Job.trace := [] |}.

(** The sequence is ahead of every stored id. *)
Definition well_formed (w : World) : Prop :=
  Forall (fun r => ProcessCache.id r < cache_sequence w) (cache w).

(** The row a successful [createCache] adds. *)
Definition inserted (m : string) (p : option Process) (pj : option ProcessJob)
    (key value : string) (w : World) : ProcessCache.t :=
  ProcessCache.Build (cache_sequence w) (process_of p) (job_of pj) m key value 0 0.

End Store.

(** ** Runs on concrete inputs: process "build", job "compile", machine "ci-1" *)

Module Scenario.

Abbreviation State := (Job.State Store.Process Store.ProcessJob Store.World).

Definition load : State -> Promise.t unit * State :=
  Job.load Store.processManager Store.machine Store.idle.

Definition syncCache : State -> Promise.t unit * State :=
  Job.syncCache Store.machine.

Definition createCache (key value : string) : State -> Promise.t ProcessCache.t * State :=
  Job.createCache Store.machine key value.

Definition getCache (key : string) : State -> Promise.t (list ProcessCache.t) * State :=
  Job.getCache Store.machine key.

Definition getFullCache : State -> Promise.t (list ProcessCache.t) * State :=
  Job.getFullCache Store.machine.

Definition hasCache : State -> Promise.t bool * State :=
  Job.hasCache Store.machine.

Definition hasCacheKey (key : string) : State -> Promise.t bool * State :=
  Job.hasCacheKey Store.machine key.

Definition createLog (message : string) : State -> Promise.t Store.ProcessJobLog * State :=
  Job.createLog Store.machine message Store.Generic.

(** A new instance over an empty database. *)
Definition fresh : State := Store.start (Job.new "build" "compile" "ci-1") Store.empty.

(** The same instance once [load()] has fulfilled. *)
Definition ready : State := snd (load fresh).

(** After [createCache("artifact-hash", "abc123")]. *)
Definition written : State := snd (createCache "artifact-hash" "abc123" ready).

(** The database the first instance leaves behind, and a second instance
    built later over it. *)
Definition artifact_record : ProcessCache.t :=
  ProcessCache.Build 1 1 1 "ci-1" "artifact-hash" "abc123" 0 0.

Definition stored_with (r : ProcessCache.t) : Store.World :=
  {| Store.processes := [ {| Store.process_id := 1; Store.process_name := "build" |} ];
     Store.jobs := [ {| Store.job_id := 1; Store.job_process := 1;
                        Store.job_name := "compile" |} ];
     Store.logs := [];
     Store.cache := [r];
     Store.cache_sequence := 2;
     Store.clock := 0;
     Store.outage := None |}.

Definition restarted : State :=
  Store.start (Job.new "build" "compile" "ci-1") (stored_with artifact_record).

(** A new instance over a database that answers [n] requests and is then
    unreachable. *)
Definition failing_after (n : nat) : State :=
  Store.start (Job.new "build" "compile" "ci-1") (Store.set_outage (Some n) Store.empty).

(** The record the store holds after [createCache("constructor", "x")] on the
    loaded instance, and a new instance over that store. *)
Definition constructor_record : ProcessCache.t :=
  ProcessCache.Build 1 1 1 "ci-1" "constructor" "x" 0 0.

Definition constructor_written : State := snd (createCache "constructor" "x" ready).

Definition constructor_restarted : State :=
  Store.start (Job.new "build" "compile" "ci-1") (stored_with constructor_record).

(** An instance whose two identities are resolved and whose index is empty,
    as [load()] leaves it over an empty database; the same instance before
    the flag is raised; and both over the database of the first run. *)
Definition resolved : Job.t Store.Process Store.ProcessJob :=
  Job.set_loaded true
    (Job.set_processJob
       (Some {| Store.job_id := 1; Store.job_process := 1; Store.job_name := "compile" |})
       (Job.set_process (Some {| Store.process_id := 1; Store.process_name := "build" |})
          (Job.new "build" "compile" "ci-1"))).

Definition resumed : State := Store.start resolved (stored_with artifact_record).

(** More rows for the same process, job and machine, and the database
    holding a given list of rows. *)
Definition second_record : ProcessCache.t :=
  ProcessCache.Build 2 1 1 "ci-1" "artifact-hash" "def456" 0 0.

Definition third_record : ProcessCache.t :=
  ProcessCache.Build 3 1 1 "ci-1" "artifact-hash" "ghi789" 0 0.

Definition toString_record : ProcessCache.t :=
  ProcessCache.Build 2 1 1 "ci-1" "toString" "x" 0 0.

Definition stored_rows (rows : list ProcessCache.t) (sequence : Z) : Store.World :=
  {| Store.processes := [ {| Store.process_id := 1; Store.process_name := "build" |} ];
     Store.jobs := [ {| Store.job_id := 1; Store.job_process := 1;
                        Store.job_name := "compile" |} ];
     Store.logs := [];
     Store.cache := rows;
     Store.cache_sequence := sequence;
     Store.clock := 0;
     Store.outage := None |}.

End Scenario.

(** ** What the index maps hold, and what a row must carry *)

Section WellFormed.

Context {Process ProcessJobModel W : Type}.

(** Every bucket is filed under the key of its records, holds at least one
    record, and sits under a name the prototype does not define. *)
Definition tree_wf (m : gmap string (list ProcessCache.t)) : Prop :=
  forall k b,
    m !! k = Some b ->
    JsObject.inherited k = false
    /\ b <> []
    /\ Forall (fun r => ProcessCache.key r = k) b.

(** Every record of the id map is filed under its own id. *)
Definition results_wf (m : gmap Z ProcessCache.t) : Prop :=
  forall i r, m !! i = Some r -> ProcessCache.id r = i.

Definition index_wf (j : Job.t Process ProcessJobModel) : Prop :=
  tree_wf (Job.cacheTree j) /\ results_wf (Job.cacheResults j).

(** Hooks that leave the index in that shape. *)
Definition keeps_index (H : Job.Hooks Process ProcessJobModel W) : Prop :=
  forall j w,
    index_wf j ->
    index_wf (fst (snd (Job.onCacheExist H j w)))
    /\ index_wf (fst (snd (Job.onCacheEmpty H j w))).

End WellFormed.

(** A supplied value fits a column when it is an integer for INTEGER and a
    string for STRING and TEXT. A column accepts the values that fit it; the
    auto-incrementing one also accepts a falsy value, which the insert
    leaves to the sequence. NULL is accepted by no other column of this
    table: all are declared [allowNull: false]. *)
Definition fits (ty : ProcessCache.DataType) (v : ProcessCache.Value) : bool :=
  match ty, v with
  | ProcessCache.INTEGER, ProcessCache.VInt _ => true
  | ProcessCache.STRING, ProcessCache.VStr _ => true
  | ProcessCache.TEXT, ProcessCache.VStr _ => true
  | _, _ => false
  end.

Definition accepts (a : ProcessCache.Attribute) (v : ProcessCache.Value) : bool :=
  fits (ProcessCache.type a) v
  || (ProcessCache.autoIncrement a && ProcessCache.falsy v).

Definition conforms (defs : list (string * ProcessCache.Attribute))
    (supplied : ProcessCache.Row) : bool :=
  forallb (fun col =>
             match ProcessCache.lookup_col (fst col) supplied with
             | Some v => accepts (snd col) v
             | None => true
             end) defs.

(** The id an insert uses: the supplied one unless it is falsy, else the
    next of the sequence. *)
Definition id_or (supplied : ProcessCache.Row) (next_id : Z) : Z :=
  match ProcessCache.lookup_col "id" supplied with
  | Some (ProcessCache.VInt z) => if Z.eqb z 0 then next_id else z
  | _ => next_id
  end.

(** What an insert writes into another column: the supplied value, else
    the default [d]; read as an integer or as a string. *)
Definition int_or (supplied : ProcessCache.Row) (c : string) (d : Z) : Z :=
  match ProcessCache.lookup_col c supplied with
  | Some (ProcessCache.VInt z) => z
  | _ => d
  end.

Definition str_or (supplied : ProcessCache.Row) (c : string) (d : string) : string :=
  match ProcessCache.lookup_col c supplied with
  | Some (ProcessCache.VStr x) => x
  | _ => d
  end.

(** * Properties of the controller *)

Section JobProperties.
Import Promise Job.

Context {Process ProcessJobModel ProcessJobLogModel ProcessLogTypes W : Type}.
Context (PM : ProcessManager Process ProcessJobModel W).
Context (M : Machine Process ProcessJobModel ProcessJobLogModel ProcessLogTypes W).
Context (H : Hooks Process ProcessJobModel W).

(** Proof steps that follow the shape of the methods. *)
Ltac run_index_update :=
  unfold sync_record, createCache, resolve_only, bind, store_result, ensure_bucket,
    push_bucket, JsObject.is_undefined, assign, this, call, ret, throw; simpl.

Ltac enter_load Hl :=
  unfold load, resolve_only, this at 1; simpl; rewrite Hl.

Ltac await_call := unfold bind at 1, call at 1; simpl.

Ltac await_this_call := unfold bind at 1, this at 1, call at 1; simpl.

Ltac await_assign := unfold bind at 1, assign at 1; simpl.

Ltac await_hasCache := unfold bind at 1, hasCache, this at 1, call at 1; simpl.

(** *** Reading properties of an object literal *)

Lemma get_ordinary {V : Type} (o : gmap string V) (k : string) :
  JsObject.inherited k = false ->
  JsObject.get o k = match o !! k with Some v => JsObject.Own v | None => JsObject.Undefined end.
Proof. intros Hk. unfold JsObject.get. rewrite Hk. reflexivity. Qed.

Lemma get_inherited {V : Type} (o : gmap string V) (k : string) :
  JsObject.inherited k = true -> o !! k = None -> JsObject.get o k = JsObject.Inherited.
Proof. intros Hk Ho. unfold JsObject.get. rewrite Ho, Hk. reflexivity. Qed.

(** *** The promise wrapper never rejects *)

Lemma resolve_only_not_rejected {A : Type} (body : Async Process ProcessJobModel W A) s e :
  fst (resolve_only body s) <> Rejected e.
Proof.
  unfold resolve_only. destruct (body s) as [[a|e'|] s']; simpl; congruence.
Qed.

Lemma resolve_only_fulfilled {A : Type} (body : Async Process ProcessJobModel W A) s a s' :
  body s = (Fulfilled a, s') -> resolve_only body s = (Fulfilled a, s').
Proof. intros Hb. unfold resolve_only. rewrite Hb. reflexivity. Qed.

Lemma resolve_only_unfulfilled {A : Type} (body : Async Process ProcessJobModel W A) s p s' :
  body s = (p, s') -> is_fulfilled p = false -> resolve_only body s = (Pending, s').
Proof. intros Hb Hp. unfold resolve_only. rewrite Hb. destruct p; simpl in *; congruence. Qed.

(** *** One step of the loop of [syncCache] *)

Lemma sync_record_ordinary (r : ProcessCache.t) (j : t Process ProcessJobModel) (w : W) (tr : list Event) :
  JsObject.inherited (ProcessCache.key r) = false ->
  sync_record r {| job := j; world := w; trace := tr |}
  = (Fulfilled tt,
     {| job := set_cacheResults (results_add (cacheResults j) r)
                 (set_cacheTree (tree_add (cacheTree j) r) j);
        world := w; trace := tr |}).
Proof.
  intros Hk.
  run_index_update.
  rewrite (get_ordinary _ _ Hk).
  destruct (cacheTree j !! ProcessCache.key r) as [bucket|] eqn:Hb; simpl.
  - rewrite (get_ordinary _ _ Hk), Hb. simpl.
    unfold tree_add, results_add. rewrite Hb. reflexivity.
  - rewrite (get_ordinary _ _ Hk), lookup_insert_eq. simpl.
    unfold tree_add, results_add, set_cacheTree, set_cacheResults. simpl.
    rewrite Hb, insert_insert_eq. reflexivity.
Qed.

Lemma sync_record_inherited (r : ProcessCache.t) (j : t Process ProcessJobModel) (w : W) (tr : list Event) :
  JsObject.inherited (ProcessCache.key r) = true ->
  cacheTree j !! ProcessCache.key r = None ->
  sync_record r {| job := j; world := w; trace := tr |}
  = (Rejected (TypeError "this.cacheTree[...].push is not a function"),
     {| job := j; world := w; trace := tr |}).
Proof.
  intros Hk Hn.
  run_index_update.
  rewrite (get_inherited _ _ Hk Hn). simpl.
  rewrite (get_inherited _ _ Hk Hn). reflexivity.
Qed.

Lemma sync_records_ordinary (rs : list ProcessCache.t) :
  ordinary_keys rs ->
  forall (j : t Process ProcessJobModel) (w : W) (tr : list Event),
    sync_records rs {| job := j; world := w; trace := tr |}
    = (Fulfilled tt,
       {| job := set_cacheResults (fold_left results_add rs (cacheResults j))
                   (set_cacheTree (fold_left tree_add rs (cacheTree j)) j);
          world := w; trace := tr |}).
Proof.
  induction 1 as [|r rs Hr Hrs IH]; intros j w tr; simpl.
  - destruct j; reflexivity.
  - unfold bind. rewrite (sync_record_ordinary _ _ _ _ Hr). rewrite IH.
    destruct j; reflexivity.
Qed.

(** *** The index built from a record list *)

Lemma tree_of_snoc (rs : list ProcessCache.t) (r : ProcessCache.t) :
  tree_of (rs ++ [r]) = tree_add (tree_of rs) r.
Proof. unfold tree_of. rewrite fold_left_app. reflexivity. Qed.

Lemma results_of_snoc (rs : list ProcessCache.t) (r : ProcessCache.t) :
  results_of (rs ++ [r]) = results_add (results_of rs) r.
Proof. unfold results_of. rewrite fold_left_app. reflexivity. Qed.

Lemma bucket_of_snoc (rs : list ProcessCache.t) (r : ProcessCache.t) (k : string) :
  bucket_of (rs ++ [r]) k
  = bucket_of rs k ++ (if bool_decide (ProcessCache.key r = k) then [r] else []).
Proof. unfold bucket_of. rewrite List.filter_app. reflexivity. Qed.

Lemma tree_of_lookup (rs : list ProcessCache.t) (k : string) :
  tree_of rs !! k = match bucket_of rs k with [] => None | b => Some b end.
Proof.
  induction rs as [|r rs IH] using rev_ind; [reflexivity|].
  rewrite tree_of_snoc, bucket_of_snoc. unfold tree_add.
  destruct (decide (ProcessCache.key r = k)) as [->|Hne].
  - rewrite lookup_insert_eq, IH, bool_decide_eq_true_2 by reflexivity.
    destruct (bucket_of rs _); reflexivity.
  - rewrite lookup_insert_ne, IH, bool_decide_eq_false_2, app_nil_r by assumption.
    reflexivity.
Qed.

Lemma results_of_lookup (rs : list ProcessCache.t) (i : Z) :
  results_of rs !! i = last (with_id rs i).
Proof.
  induction rs as [|r rs IH] using rev_ind; [reflexivity|].
  rewrite results_of_snoc. unfold results_add, with_id. rewrite List.filter_app. simpl.
  destruct (decide (ProcessCache.id r = i)) as [->|Hne].
  - rewrite lookup_insert_eq, bool_decide_eq_true_2 by reflexivity.
    symmetry. apply last_snoc.
  - rewrite lookup_insert_ne, IH, bool_decide_eq_false_2, app_nil_r by assumption.
    reflexivity.
Qed.

Lemma tree_of_ordinary (rs : list ProcessCache.t) :
  ordinary_keys rs -> ordinary_tree (tree_of rs).
Proof.
  intros Hrs k Hk. rewrite tree_of_lookup.
  assert (bucket_of rs k = []) as ->; [|reflexivity].
  unfold bucket_of. induction Hrs as [|r rs Hr _ IH]; [reflexivity|]. simpl.
  rewrite bool_decide_eq_false_2; [exact IH|]. intros Heq. rewrite Heq in Hr. congruence.
Qed.

(** With unique ids the id map holds every record of the list. *)
Lemma results_of_unique (rs : list ProcessCache.t) (r : ProcessCache.t) :
  NoDup (map ProcessCache.id rs) -> r ∈ rs -> results_of rs !! ProcessCache.id r = Some r.
Proof.
  induction rs as [|x rs IH] using rev_ind; intros Hnd Hin.
  - inversion Hin.
  - rewrite results_of_snoc. unfold results_add.
    rewrite map_app in Hnd. apply NoDup_app in Hnd as (Hnd & Hdisj & _).
    apply elem_of_app in Hin as [Hin|Hin].
    + rewrite lookup_insert_ne; [auto|].
      intros Heq. apply (Hdisj (ProcessCache.id r)).
      * apply list_elem_of_fmap. exists r. auto.
      * rewrite <- Heq. simpl. left.
    + apply list_elem_of_singleton in Hin as ->. apply lookup_insert_eq.
Qed.

Lemma results_of_sound (rs : list ProcessCache.t) (i : Z) (r : ProcessCache.t) :
  results_of rs !! i = Some r -> r ∈ rs /\ ProcessCache.id r = i.
Proof.
  induction rs as [|x rs IH] using rev_ind.
  - unfold results_of. simpl. rewrite lookup_empty. discriminate.
  - rewrite results_of_snoc. unfold results_add.
    destruct (decide (ProcessCache.id x = i)) as [<-|Hne].
    + rewrite lookup_insert_eq. intros [= <-]. split; [|reflexivity].
      apply elem_of_app. right. left.
    + rewrite lookup_insert_ne by assumption. intros Hl.
      destruct (IH Hl) as [Hin Hid]. split; [|exact Hid].
      apply elem_of_app. left. exact Hin.
Qed.

(** *** [syncCache] on a record list without prototype names *)

Lemma syncCache_ordinary (j : t Process ProcessJobModel) (w : W) (tr : list Event)
    (rs : list ProcessCache.t) (w' : W) :
  Machine_getFullCache M (machine j) (process j) (processJob j) w = (Fulfilled rs, w') ->
  ordinary_keys rs ->
  syncCache M {| job := j; world := w; trace := tr |}
  = (Fulfilled tt,
     {| job := indexed rs j; world := w'; trace := tr ++ [MachineGetFullCache] |}).
Proof.
  intros Hfull Hrs.
  apply resolve_only_fulfilled.
  unfold bind, assign, getFullCache, this, call; simpl.
  rewrite Hfull. rewrite (sync_records_ordinary _ Hrs). simpl.
  destruct j; reflexivity.
Qed.

Lemma syncCache_fetch_fails (j : t Process ProcessJobModel) (w : W) (tr : list Event)
    (p : Promise.t (list ProcessCache.t)) (w' : W) :
  Machine_getFullCache M (machine j) (process j) (processJob j) w = (p, w') ->
  is_fulfilled p = false ->
  syncCache M {| job := j; world := w; trace := tr |}
  = (Pending,
     {| job := set_cacheTree ∅ (set_cacheResults ∅ j); world := w';
        trace := tr ++ [MachineGetFullCache] |}).
Proof.
  intros Hfull Hp.
  unfold syncCache, resolve_only, bind, assign, getFullCache, this, call; simpl.
  rewrite Hfull. destruct p; simpl in *; try discriminate; reflexivity.
Qed.

Lemma tree_add_ordinary (m : gmap string (list ProcessCache.t)) (r : ProcessCache.t) :
  JsObject.inherited (ProcessCache.key r) = false ->
  ordinary_tree m -> ordinary_tree (tree_add m r).
Proof.
  intros Hr Hm k Hk. unfold tree_add.
  rewrite lookup_insert_ne; [apply Hm; exact Hk|]. intros Heq. rewrite Heq in Hr. congruence.
Qed.

(** The loop gets through only when no key names a property of the
    prototype. *)
Lemma sync_records_fulfilled (rs : list ProcessCache.t) :
  forall (j : t Process ProcessJobModel) (w : W) (tr : list Event) s',
    ordinary_tree (cacheTree j) ->
    sync_records rs {| job := j; world := w; trace := tr |} = (Fulfilled tt, s') ->
    ordinary_keys rs.
Proof.
  induction rs as [|r rs IH]; intros j w tr s' Hj; simpl; [constructor|].
  unfold bind.
  destruct (JsObject.inherited (ProcessCache.key r)) eqn:Hr.
  - rewrite (sync_record_inherited _ _ _ _ Hr (Hj _ Hr)). discriminate.
  - rewrite (sync_record_ordinary _ _ _ _ Hr). intros Hrest.
    constructor; [exact Hr|].
    eapply IH; [|exact Hrest]. simpl. apply tree_add_ordinary; assumption.
Qed.

Lemma syncCache_fulfilled (j : t Process ProcessJobModel) (w : W) (tr : list Event) s' :
  syncCache M {| job := j; world := w; trace := tr |} = (Fulfilled tt, s') ->
  exists rs w',
    Machine_getFullCache M (machine j) (process j) (processJob j) w = (Fulfilled rs, w')
    /\ ordinary_keys rs
    /\ s' = {| job := indexed rs j; world := w'; trace := tr ++ [MachineGetFullCache] |}.
Proof.
  intros Hsync.
  destruct (Machine_getFullCache M (machine j) (process j) (processJob j) w)
    as [p w'] eqn:Hfull.
  destruct p as [rs|e|];
    try (rewrite (syncCache_fetch_fails _ _ _ _ _ Hfull eq_refl) in Hsync; discriminate).
  assert (ordinary_keys rs) as Hrs.
  { revert Hsync.
    unfold syncCache, resolve_only, bind, assign, getFullCache, this, call; simpl.
    rewrite Hfull.
    match goal with |- context [sync_records rs ?s0] =>
      destruct (sync_records rs s0) as [[[]|e|] s1] eqn:Hloop end; try discriminate.
    intros _. eapply sync_records_fulfilled; [|exact Hloop].
    simpl. intros k _. apply lookup_empty. }
  exists rs, w'. split; [reflexivity|]. split; [exact Hrs|].
  rewrite (syncCache_ordinary _ _ _ _ _ Hfull Hrs) in Hsync. congruence.
Qed.

(** *** What the index updates leave alone *)

Lemma sync_record_frame (r : ProcessCache.t) (s : Job.State Process ProcessJobModel W) :
  exists ct cr,
    snd (sync_record r s)
    = {| job := set_cacheResults cr (set_cacheTree ct (job s));
         world := world s; trace := trace s |}.
Proof.
  destruct s as [j w tr].
  run_index_update.
  destruct (JsObject.get (cacheTree j) (ProcessCache.key r)) as [b| |] eqn:Hg; simpl.
  - rewrite Hg. simpl. eexists _, _. reflexivity.
  - rewrite Hg. simpl. exists (cacheTree j), (cacheResults j). destruct j; reflexivity.
  - unfold JsObject.get. rewrite lookup_insert_eq. simpl. eexists _, _. reflexivity.
Qed.

Lemma sync_records_frame (rs : list ProcessCache.t) :
  forall s : Job.State Process ProcessJobModel W,
  exists ct cr,
    snd (sync_records rs s)
    = {| job := set_cacheResults cr (set_cacheTree ct (job s));
         world := world s; trace := trace s |}.
Proof.
  induction rs as [|r rs IH]; intros s; simpl.
  - exists (cacheTree (job s)), (cacheResults (job s)). destruct s as [[] ? ?]; reflexivity.
  - unfold bind. destruct (sync_record_frame r s) as (ct & cr & Hs).
    destruct (sync_record r s) as [[[]|e|] s'] eqn:Hr; simpl in Hs; subst s'.
    + destruct (IH {| job := set_cacheResults cr (set_cacheTree ct (job s));
                      world := world s; trace := trace s |}) as (ct' & cr' & Hs').
      rewrite Hs'. simpl. eexists _, _. reflexivity.
    + simpl. eexists _, _. reflexivity.
    + simpl. eexists _, _. reflexivity.
Qed.

Lemma syncCache_frame (s : Job.State Process ProcessJobModel W) :
  exists ct cr w,
    snd (syncCache M s)
    = {| job := set_cacheResults cr (set_cacheTree ct (job s));
         world := w; trace := trace s ++ [MachineGetFullCache] |}.
Proof.
  destruct s as [j w tr].
  unfold syncCache, resolve_only, bind, assign, getFullCache, this, call; simpl.
  destruct (Machine_getFullCache M (machine j) (process j) (processJob j) w)
    as [[rs|e|] w'] eqn:Hfull; simpl.
  - match goal with |- context [sync_records rs ?s0] =>
      destruct (sync_records_frame rs s0) as (ct & cr & Hs);
      destruct (sync_records rs s0) as [[[]|e|] s'] end;
      simpl in Hs; subst s'; simpl; eexists _, _, _; reflexivity.
  - eexists _, _, _; reflexivity.
  - eexists _, _, _; reflexivity.
Qed.

Lemma createCache_frame (key value : string) (s : Job.State Process ProcessJobModel W) :
  exists ct cr w,
    snd (createCache M key value s)
    = {| job := set_cacheResults cr (set_cacheTree ct (job s));
         world := w; trace := trace s ++ [MachineCreateCache key value] |}.
Proof.
  destruct s as [j w tr].
  run_index_update.
  destruct (Machine_createCache M (machine j) (process j) (processJob j) key value w)
    as [[r|e|] w'] eqn:Hc; simpl.
  - destruct (JsObject.get (cacheTree j) (ProcessCache.key r)) as [b| |] eqn:Hg; simpl.
    + rewrite Hg. simpl. eexists _, _, _. reflexivity.
    + rewrite Hg. simpl. eexists (cacheTree j), _, _. reflexivity.
    + unfold JsObject.get. rewrite lookup_insert_eq. simpl. eexists _, _, _. reflexivity.
  - exists (cacheTree j), (cacheResults j), w'. destruct j; reflexivity.
  - exists (cacheTree j), (cacheResults j), w'. destruct j; reflexivity.
Qed.

(** *** [load] *)

Lemma load_loaded (s : Job.State Process ProcessJobModel W) :
  loaded (job s) = true -> load PM M H s = (Fulfilled tt, s).
Proof.
  intros Hl. unfold load, resolve_only, this. rewrite Hl. reflexivity.
Qed.



Lemma load_unloaded (s s' : Job.State Process ProcessJobModel W) (o : Promise.t unit) :
  well_behaved H ->
  loaded (job s) = false ->
  load PM M H s = (o, s') ->
  (is_Some (process (job s)) -> is_Some (process (job s')))
  /\ (is_Some (processJob (job s)) -> is_Some (processJob (job s')))
  /\ (loaded (job s') = true -> is_Some (process (job s')) /\ is_Some (processJob (job s')))
  /\ (is_fulfilled o = false -> o = Pending /\ loaded (job s') = false).
Proof.
  intros [Hexist Hempty]. destruct s as [j w tr]. simpl. intros Hl.
  enter_load Hl.
  await_call.
  destruct (ProcessManager_load PM w) as [[[]|e|] w1]; simpl;
    try (intros [= <- <-]; simpl; repeat split; auto; congruence).
  await_this_call.
  destruct (Machine_load M (machine j) w1) as [[[]|e|] w2]; simpl;
    try (intros [= <- <-]; simpl; repeat split; auto; congruence).
  await_this_call.
  destruct (ProcessManager_createProcess PM (processName j) w2) as [[p|e|] w3]; simpl;
    try (intros [= <- <-]; simpl; repeat split; auto; congruence).
  await_assign.
  await_this_call.
  destruct (ProcessManager_createJob PM p (jobName j) w3) as [[pj|e|] w4]; simpl;
    try (intros [= <- <-]; simpl; repeat split; eauto; congruence).
  await_assign.
  await_hasCache.
  destruct (Machine_hasCache M (machine j) (Some p) (Some pj) w4) as [[found|e|] w5]; simpl;
    try (intros [= <- <-]; simpl; repeat split; eauto; congruence).
  unfold bind at 1. destruct found.
  - unfold bind at 1.
    match goal with |- context [syncCache M ?s0] =>
      destruct (syncCache_frame s0) as (ct & cr & w6 & Hs);
      destruct (syncCache M s0) as [[[]|e|] s1] end;
      simpl in Hs; subst s1; simpl;
      try (intros [= <- <-]; simpl; repeat split; eauto; congruence).
    unfold dispatch, assign. simpl.
    match goal with |- context [onCacheExist H ?j0 ?w0] =>
      destruct (Hexist j0 w0) as (Hp & Hpj & Hld);
      destruct (onCacheExist H j0 w0) as [[[]|e|] [j' w7]] end;
      simpl in *; intros [= <- <-]; simpl; rewrite ?Hp, ?Hpj, ?Hld;
      repeat split; eauto; congruence.
  - unfold dispatch, assign. simpl.
    match goal with |- context [onCacheEmpty H ?j0 ?w0] =>
      destruct (Hempty j0 w0) as (Hp & Hpj & Hld);
      destruct (onCacheEmpty H j0 w0) as [[[]|e|] [j' w6]] end;
      simpl in *; intros [= <- <-]; simpl; rewrite ?Hp, ?Hpj, ?Hld;
      repeat split; eauto; congruence.
Qed.

(** C10. [createCache] leaves the index alone when the insert fails: if the
    machine's promise does not fulfil, neither [cacheResults] nor [cacheTree]
    changes (the instance is the same), and the promise of [createCache] is
    never settled. On no input is the promise of [createCache] rejected. *)
Theorem createCache_insert_failure (key value : string) (j : t Process ProcessJobModel)
    (w : W) (tr : list Event) (p : Promise.t ProcessCache.t) (w' : W) :
  Machine_createCache M (machine j) (process j) (processJob j) key value w = (p, w') ->
  is_fulfilled p = false ->
  createCache M key value {| job := j; world := w; trace := tr |}
  = (Pending, {| job := j; world := w'; trace := tr ++ [MachineCreateCache key value] |})
  /\ (forall (s : Job.State Process ProcessJobModel W) e,
        fst (createCache M key value s) <> Rejected e).
Proof.
  intros Hc Hp. split.
  - unfold createCache, resolve_only, bind at 1, this at 1, call at 1. simpl.
    rewrite Hc. destruct p; simpl in *; try discriminate; reflexivity.
  - intros s e. apply resolve_only_not_rejected.
Qed.

Lemma createCache_ignores_loaded (key value : string) (j : t Process ProcessJobModel)
    (w : W) (tr : list Event) (b : bool) :
  fst (createCache M key value {| job := set_loaded b j; world := w; trace := tr |})
  = fst (createCache M key value {| job := j; world := w; trace := tr |})
  /\ cacheTree (job (snd (createCache M key value
                            {| job := set_loaded b j; world := w; trace := tr |})))
     = cacheTree (job (snd (createCache M key value
                              {| job := j; world := w; trace := tr |})))
  /\ cacheResults (job (snd (createCache M key value
                               {| job := set_loaded b j; world := w; trace := tr |})))
     = cacheResults (job (snd (createCache M key value
                                 {| job := j; world := w; trace := tr |}))).
Proof.
  run_index_update.
  destruct (Machine_createCache M (machine j) (process j) (processJob j) key value w)
    as [[r|e|] w']; simpl; auto.
  destruct (JsObject.get (cacheTree j) (ProcessCache.key r)) as [bk| |] eqn:Hg; simpl;
    rewrite ?Hg; simpl; auto.
  unfold JsObject.get. rewrite lookup_insert_eq. simpl. auto.
Qed.

(** C3 (as amended). The public operations carry no guard on the [loaded]
    flag. With the flag set either way, [createLog], [getCache],
    [hasCacheKey], [hasCache] and [getFullCache] return the promise of the
    machine method they forward to, called with the identities as they are
    (both [null] before loading); [createCache] forwards to the machine and
    updates the index in the same way, and its promise is never rejected.
    No error of the controller's own is raised before [load()]. *)
Theorem operations_have_no_guard (j : t Process ProcessJobModel) (w : W) (tr : list Event)
    (b : bool) (message : string) (logType : ProcessLogTypes) (key value : string) :
  let s := {| job := j; world := w; trace := tr |} in
  let s' := {| job := set_loaded b j; world := w; trace := tr |} in
  (fst (createLog M message logType s') = fst (createLog M message logType s)
   /\ fst (createLog M message logType s)
      = fst (Machine_createLog M (machine j) (process j) (processJob j) message logType w))
  /\ (fst (getCache M key s') = fst (getCache M key s)
      /\ fst (getCache M key s)
         = fst (Machine_getCache M (machine j) (process j) (processJob j) key w))
  /\ (fst (hasCacheKey M key s') = fst (hasCacheKey M key s)
      /\ fst (hasCacheKey M key s)
         = fst (Machine_hasCacheKey M (machine j) (process j) (processJob j) key w))
  /\ (fst (hasCache M s') = fst (hasCache M s)
      /\ fst (hasCache M s)
         = fst (Machine_hasCache M (machine j) (process j) (processJob j) w))
  /\ (fst (getFullCache M s') = fst (getFullCache M s)
      /\ fst (getFullCache M s)
         = fst (Machine_getFullCache M (machine j) (process j) (processJob j) w))
  /\ (fst (createCache M key value s') = fst (createCache M key value s)
      /\ cacheTree (job (snd (createCache M key value s')))
         = cacheTree (job (snd (createCache M key value s)))
      /\ cacheResults (job (snd (createCache M key value s')))
         = cacheResults (job (snd (createCache M key value s)))
      /\ forall e, fst (createCache M key value s) <> Rejected e).
Proof.
  intros s s'. subst s s'.
  destruct (createCache_ignores_loaded key value j w tr b) as (Hp & Ht & Hr).
  unfold createLog, getCache, hasCacheKey, hasCache, getFullCache, this, call. simpl.
  repeat split;
    try match goal with
        | |- context [let '(_, _) := ?c in _] => destruct c; reflexivity
        end; try assumption.
  intros e. apply resolve_only_not_rejected.
Qed.

(** *** Sequences of operations *)

Lemma exec_keeps_lifecycle (op : Op ProcessLogTypes) (s : Job.State Process ProcessJobModel W) :
  op <> Load ->
  process (job (exec PM M H op s)) = process (job s)
  /\ processJob (job (exec PM M H op s)) = processJob (job s)
  /\ loaded (job (exec PM M H op s)) = loaded (job s).
Proof.
  intros Hop. destruct op; try congruence; simpl.
  - destruct (syncCache_frame s) as (ct & cr & w & ->). auto.
  - unfold createLog, this, call. destruct (Machine_createLog _ _ _ _ _ _ _). auto.
  - destruct (createCache_frame key value s) as (ct & cr & w & ->). auto.
  - unfold getCache, this, call. destruct (Machine_getCache _ _ _ _ _ _). auto.
  - unfold hasCacheKey, this, call. destruct (Machine_hasCacheKey _ _ _ _ _ _). auto.
  - unfold hasCache, this, call. destruct (Machine_hasCache _ _ _ _ _). auto.
  - unfold getFullCache, this, call. destruct (Machine_getFullCache _ _ _ _ _). auto.
Qed.

Lemma exec_step (op : Op ProcessLogTypes) (s : Job.State Process ProcessJobModel W) :
  well_behaved H ->
  (is_Some (process (job s)) -> is_Some (process (job (exec PM M H op s))))
  /\ (is_Some (processJob (job s)) -> is_Some (processJob (job (exec PM M H op s))))
  /\ (loaded (job s) = false ->
      loaded (job (exec PM M H op s)) = true ->
      is_Some (process (job (exec PM M H op s)))
      /\ is_Some (processJob (job (exec PM M H op s)))).
Proof.
  intros Hwb.
  assert (op = Load \/ op <> Load) as [->|Hop]
    by (destruct op; (left; reflexivity) || (right; discriminate)).
  - simpl. destruct (loaded (job s)) eqn:Hl.
    + rewrite (load_loaded s Hl). simpl. repeat split; auto; congruence.
    + destruct (load PM M H s) as [o s'] eqn:Hload. simpl.
      destruct (load_unloaded s s' o Hwb Hl Hload) as (Hp & Hpj & Hid & _).
      repeat split; auto; apply Hid; assumption.
  - destruct (exec_keeps_lifecycle op s Hop) as (-> & -> & ->).
    repeat split; auto; congruence.
Qed.

Lemma exec_identified (op : Op ProcessLogTypes) (s : Job.State Process ProcessJobModel W) :
  well_behaved H -> identified (job s) -> identified (job (exec PM M H op s)).
Proof.
  intros Hwb Hid Hl'.
  destruct (exec_step op s Hwb) as (Hp & Hpj & Hset).
  destruct (loaded (job s)) eqn:Hl.
  - destruct (Hid Hl) as [Hip Hipj]. auto.
  - apply Hset; auto.
Qed.

(** C9. After any sequence of operations on a new instance, if [loaded] is
    true then the process and the job are both set. No operation turns a set
    identity back to [null], and an operation that raises the flag leaves both
    identities set. The subclass hooks are taken to leave the identities and
    the flag alone. *)
Theorem loaded_implies_identified (ops : list (Op ProcessLogTypes))
    (processName jobName machineName : string) (w : W) :
  well_behaved H ->
  identified
    (job (exec_all PM M H ops
            {| job := new processName jobName machineName; world := w; trace := [] |}))
  /\ (forall op (s : Job.State Process ProcessJobModel W),
        (is_Some (process (job s)) -> is_Some (process (job (exec PM M H op s))))
        /\ (is_Some (processJob (job s)) -> is_Some (processJob (job (exec PM M H op s))))
        /\ (loaded (job s) = false ->
            loaded (job (exec PM M H op s)) = true ->
            is_Some (process (job (exec PM M H op s)))
            /\ is_Some (processJob (job (exec PM M H op s))))).
Proof.
  intros Hwb. split.
  - unfold exec_all.
    assert (forall s : Job.State Process ProcessJobModel W,
              identified (job s) ->
              identified (job (fold_left (fun s op => exec PM M H op s) ops s))) as Hall.
    { induction ops as [|op ops IH]; intros s Hs; simpl; [exact Hs|].
      apply IH. apply exec_identified; assumption. }
    apply Hall. intros Hl. discriminate.
  - intros op s. apply exec_step. exact Hwb.
Qed.

(** *** [createCache] *)

Lemma createCache_ordinary (key value : string) (j : t Process ProcessJobModel) (w : W)
    (tr : list Event) (r : ProcessCache.t) (w' : W) :
  Machine_createCache M (machine j) (process j) (processJob j) key value w = (Fulfilled r, w') ->
  JsObject.inherited (ProcessCache.key r) = false ->
  createCache M key value {| job := j; world := w; trace := tr |}
  = (Fulfilled r,
     {| job := set_cacheTree (tree_add (cacheTree j) r)
                 (set_cacheResults (results_add (cacheResults j) r) j);
        world := w'; trace := tr ++ [MachineCreateCache key value] |}).
Proof.
  intros Hc Hk.
  run_index_update.
  rewrite Hc. simpl. rewrite (get_ordinary _ _ Hk).
  destruct (cacheTree j !! ProcessCache.key r) as [bucket|] eqn:Hb; simpl.
  - rewrite (get_ordinary _ _ Hk), Hb. simpl.
    unfold tree_add, results_add. rewrite Hb. reflexivity.
  - rewrite (get_ordinary _ _ Hk), lookup_insert_eq. simpl.
    unfold tree_add, results_add, set_cacheTree, set_cacheResults. simpl.
    rewrite Hb, insert_insert_eq. reflexivity.
Qed.

Lemma createCache_inherited (key value : string) (j : t Process ProcessJobModel) (w : W)
    (tr : list Event) (r : ProcessCache.t) (w' : W) :
  Machine_createCache M (machine j) (process j) (processJob j) key value w = (Fulfilled r, w') ->
  JsObject.inherited (ProcessCache.key r) = true ->
  cacheTree j !! ProcessCache.key r = None ->
  createCache M key value {| job := j; world := w; trace := tr |}
  = (Pending,
     {| job := set_cacheResults (results_add (cacheResults j) r) j;
        world := w'; trace := tr ++ [MachineCreateCache key value] |}).
Proof.
  intros Hc Hk Hn.
  run_index_update.
  rewrite Hc. simpl. rewrite (get_inherited _ _ Hk Hn). simpl.
  rewrite (get_inherited _ _ Hk Hn). reflexivity.
Qed.

Lemma createCache_world (key value : string) (s : Job.State Process ProcessJobModel W) :
  world (snd (createCache M key value s))
  = snd (Machine_createCache M (machine (job s)) (process (job s)) (processJob (job s))
           key value (world s))
  /\ machine (job (snd (createCache M key value s))) = machine (job s)
  /\ process (job (snd (createCache M key value s))) = process (job s)
  /\ processJob (job (snd (createCache M key value s))) = processJob (job s).
Proof.
  destruct s as [j w tr].
  run_index_update.
  destruct (Machine_createCache M (machine j) (process j) (processJob j) key value w)
    as [[r|e|] w']; simpl; auto.
  destruct (JsObject.get (cacheTree j) (ProcessCache.key r)) as [b| |] eqn:Hg; simpl.
  - rewrite Hg. simpl. auto.
  - rewrite Hg. simpl. auto.
  - unfold JsObject.get. rewrite lookup_insert_eq. simpl. auto.
Qed.

(** An index that mirrors the stored records still does after a write,
    when the store hands back the old records followed by the new one. *)
Lemma createCache_keeps_index (key value : string) (j : t Process ProcessJobModel) (w : W)
    (tr : list Event) (rs : list ProcessCache.t) (r : ProcessCache.t) (w' w'' : W) :
  cacheTree j = tree_of rs ->
  cacheResults j = results_of rs ->
  Machine_createCache M (machine j) (process j) (processJob j) key value w = (Fulfilled r, w') ->
  Machine_getFullCache M (machine j) (process j) (processJob j) w' = (Fulfilled (rs ++ [r]), w'') ->
  ordinary_keys (rs ++ [r]) ->
  let s1 := snd (createCache M key value {| job := j; world := w; trace := tr |}) in
  fst (createCache M key value {| job := j; world := w; trace := tr |}) = Fulfilled r
  /\ cacheTree (job s1) = tree_add (cacheTree j) r
  /\ cacheResults (job s1) = results_add (cacheResults j) r
  /\ cacheTree (job s1) = cacheTree (job (snd (syncCache M s1)))
  /\ cacheResults (job s1) = cacheResults (job (snd (syncCache M s1))).
Proof.
  intros Ht Hr Hc Hfull Hord s1.
  assert (JsObject.inherited (ProcessCache.key r) = false) as Hk.
  { apply Forall_app in Hord as [_ Hord]. inversion Hord; assumption. }
  subst s1. rewrite (createCache_ordinary _ _ _ _ _ _ _ Hc Hk). simpl.
  repeat split.
  - rewrite (syncCache_ordinary _ _ _ (rs ++ [r]) w''); [|exact Hfull|exact Hord].
    simpl. rewrite tree_of_snoc, Ht. reflexivity.
  - rewrite (syncCache_ordinary _ _ _ (rs ++ [r]) w''); [|exact Hfull|exact Hord].
    simpl. rewrite results_of_snoc, Hr. reflexivity.
Qed.

Lemma getCache_promise (key : string) (s : Job.State Process ProcessJobModel W) :
  fst (getCache M key s)
  = fst (Machine_getCache M (machine (job s)) (process (job s)) (processJob (job s))
           key (world s)).
Proof.
  unfold getCache, this, call.
  destruct (Machine_getCache M _ _ _ key (world s)). reflexivity.
Qed.

End JobProperties.

(** * Properties of the table definition *)

Section ProcessCacheProperties.
Import ProcessCache.

Lemma fill_column_name (supplied : Row) (next_id : Z) (col : string * Attribute)
    (cv : string * Value) :
  fill_column supplied next_id col = Some cv -> fst cv = fst col.
Proof.
  unfold fill_column, absent_column.
  destruct (lookup_col (fst col) supplied) as [v|];
    destruct (autoIncrement (snd col)); cbn [andb];
    try destruct (falsy v); try destruct v;
    destruct (defaultValue (snd col)); destruct (allowNull (snd col));
    first [discriminate | intros [= <-]; reflexivity].
Qed.

(** A filled row holds, for every defined column, what [fill_column] chose. *)
Lemma fill_columns_lookup (defs : list (string * Attribute)) (supplied : Row) (next_id : Z) :
  forall row c,
    fill_columns defs supplied next_id = Some row ->
    lookup_col c row
    = match List.find (fun col => String.eqb c (fst col)) defs with
      | Some col => snd <$> fill_column supplied next_id col
      | None => None
      end.
Proof.
  induction defs as [|col defs IH]; intros row c; simpl.
  - intros [= <-]. reflexivity.
  - destruct (fill_column supplied next_id col) as [cv|] eqn:Hcol; [|discriminate].
    destruct (fill_columns defs supplied next_id) as [r|]; [|discriminate].
    intros [= <-]. simpl. destruct cv as [c' v].
    apply fill_column_name in Hcol as Hname. simpl in Hname. subst c'.
    destruct (String.eqb c (fst col)); [rewrite Hcol; reflexivity|]. apply IH. reflexivity.
Qed.

Lemma create_row (table : list t) (now next_id : Z) (supplied : Row) (r : t) :
  create ProcessCacheAttributeDefinition init_options table now next_id supplied = Some r ->
  exists row,
    fill_columns ProcessCacheAttributeDefinition supplied next_id = Some row
    /\ of_row row = Some r.
Proof.
  unfold create, insert, build.
  destruct (fill_columns ProcessCacheAttributeDefinition supplied next_id) as [row|];
    [|discriminate].
  change (stamp init_options now <$> Some row) with (Some row). cbv beta iota.
  destruct (existsb (fun ix => violates ix table row) _); [discriminate|].
  intros Hr. exists row. auto.
Qed.

Lemma of_row_columns (row : Row) (r : t) :
  of_row row = Some r ->
  int_col "createdAt" row = Some (createdAt r)
  /\ int_col "updatedAt" row = Some (updatedAt r).
Proof.
  unfold of_row.
  destruct (int_col "id" row); [|discriminate].
  destruct (int_col "process" row); [|discriminate].
  destruct (int_col "job" row); [|discriminate].
  destruct (str_col "machine" row); [|discriminate].
  destruct (str_col "key" row); [|discriminate].
  destruct (str_col "value" row); [|discriminate].
  destruct (int_col "createdAt" row); [|discriminate].
  destruct (int_col "updatedAt" row); [|discriminate].
  intros [= <-]. auto.
Qed.

(** C8. The table is declared with [timestamps: false], so an insert never
    writes the clock into [createdAt] or [updatedAt]: a record inserted
    without them carries the default [0] of the attribute definition, one
    inserted with them carries the caller's integers, and the record is the
    same whatever the time of the insert. *)
Theorem timestamps_are_caller_managed (table : list t) (now next_id : Z) (supplied : Row)
    (r : t) :
  create ProcessCacheAttributeDefinition init_options table now next_id supplied = Some r ->
  (lookup_col "createdAt" supplied = None -> createdAt r = 0)
  /\ (lookup_col "updatedAt" supplied = None -> updatedAt r = 0)
  /\ (forall c, lookup_col "createdAt" supplied = Some (VInt c) -> createdAt r = c)
  /\ (forall u, lookup_col "updatedAt" supplied = Some (VInt u) -> updatedAt r = u)
  /\ (forall now',
        create ProcessCacheAttributeDefinition init_options table now' next_id supplied
        = Some r).
Proof.
  intros Hcreate.
  destruct (create_row _ _ _ _ _ Hcreate) as (row & Hfill & Hrow).
  destruct (of_row_columns _ _ Hrow) as [Hc Hu].
  unfold int_col in Hc, Hu.
  rewrite (fill_columns_lookup _ _ _ _ _ Hfill) in Hc.
  rewrite (fill_columns_lookup _ _ _ _ _ Hfill) in Hu.
  simpl in Hc, Hu. unfold fill_column, absent_column in Hc, Hu. simpl in Hc, Hu.
  repeat split.
  - intros Hs. rewrite Hs in Hc. simpl in Hc. congruence.
  - intros Hs. rewrite Hs in Hu. simpl in Hu. congruence.
  - intros c Hs. rewrite Hs in Hc. simpl in Hc. congruence.
  - intros u Hs. rewrite Hs in Hu. simpl in Hu. congruence.
  - intros now'. exact Hcreate.
Qed.

(** The row [Machine] inserts: the five scoping columns supplied, the id
    drawn from the sequence, both timestamps at their default. *)
Lemma create_scoped (table : list t) (now next_id p j : Z) (m k v : string) :
  Forall (fun r => id r < next_id) table ->
  create ProcessCacheAttributeDefinition init_options table now next_id
    [ ("process", VInt p); ("job", VInt j); ("machine", VStr m);
      ("key", VStr k); ("value", VStr v) ]
  = Some (Build next_id p j m k v 0 0).
Proof.
  intros Hids. unfold create, insert, build. simpl.
  assert (existsb (fun x => Z.eqb (id x) next_id && true) table = false) as Hpk.
  { induction Hids as [|x table Hx _ IH]; [reflexivity|]. simpl. rewrite IH.
    replace (Z.eqb (id x) next_id) with false; [reflexivity|].
    symmetry. apply Z.eqb_neq. lia. }
  unfold violates. simpl. unfold project. simpl. rewrite Hpk. reflexivity.
Qed.

End ProcessCacheProperties.

(** * Properties of the controller over the store *)

Section StoreProperties.
Import Promise.

Lemma request_reachable {A : Type} (k : Store.World -> Promise.t A * Store.World)
    (w : Store.World) :
  Store.outage w = None -> Store.request k w = k w.
Proof. intros Ho. unfold Store.request. rewrite Ho. reflexivity. Qed.

Lemma store_createCache (m : string) (p : option Store.Process)
    (pj : option Store.ProcessJob) (key value : string) (w : Store.World) :
  Store.well_formed w ->
  Store.outage w = None ->
  Store.createCache m p pj key value w
  = (Fulfilled (Store.inserted m p pj key value w),
     Store.insert_cache (Store.inserted m p pj key value w) w).
Proof.
  intros Hwf Ho. unfold Store.createCache. rewrite request_reachable by exact Ho.
  rewrite create_scoped by exact Hwf. reflexivity.
Qed.

Lemma insert_cache_well_formed (m : string) (p : option Store.Process)
    (pj : option Store.ProcessJob) (key value : string) (w : Store.World) :
  Store.well_formed w ->
  Store.well_formed (Store.insert_cache (Store.inserted m p pj key value w) w).
Proof.
  unfold Store.well_formed. simpl. intros Hwf. apply Forall_app. split.
  - eapply Forall_impl; [exact Hwf|]. simpl. intros r Hr. lia.
  - constructor; [simpl; lia|constructor].
Qed.

Lemma scoped_inserted (m : string) (p : option Store.Process) (pj : option Store.ProcessJob)
    (key value : string) (w : Store.World) :
  Store.scoped m p pj (Store.inserted m p pj key value w)
  && String.eqb (ProcessCache.key (Store.inserted m p pj key value w)) key = true.
Proof.
  unfold Store.scoped, Store.inserted. simpl.
  rewrite !Z.eqb_refl, !String.eqb_refl. reflexivity.
Qed.

Lemma createCache_on_store (key value : string) (s : Scenario.State) :
  Store.well_formed (Job.world s) ->
  Store.outage (Job.world s) = None ->
  Job.world (snd (Scenario.createCache key value s))
  = Store.insert_cache
      (Store.inserted (Job.machine (Job.job s)) (Job.process (Job.job s))
         (Job.processJob (Job.job s)) key value (Job.world s))
      (Job.world s)
  /\ Job.machine (Job.job (snd (Scenario.createCache key value s))) = Job.machine (Job.job s)
  /\ Job.process (Job.job (snd (Scenario.createCache key value s))) = Job.process (Job.job s)
  /\ Job.processJob (Job.job (snd (Scenario.createCache key value s)))
     = Job.processJob (Job.job s).
Proof.
  intros Hwf Ho.
  destruct (createCache_world Store.machine key value s) as (Hw & Hm & Hp & Hpj).
  simpl in Hw. rewrite (store_createCache _ _ _ _ _ _ Hwf Ho) in Hw.
  repeat split; assumption.
Qed.

Lemma getCache_on_store (key : string) (s : Scenario.State) :
  Store.outage (Job.world s) = None ->
  fst (Scenario.getCache key s)
  = Fulfilled (Store.matching (Job.machine (Job.job s)) (Job.process (Job.job s))
                 (Job.processJob (Job.job s)) key (Store.cache (Job.world s))).
Proof.
  intros Ho. unfold Scenario.getCache. rewrite getCache_promise. simpl.
  unfold Store.getCache. rewrite request_reachable by exact Ho. reflexivity.
Qed.

(** C7. Cache keys are not unique. Two [createCache] calls with the same
    key on one instance (hence the same process, job and machine), over a
    reachable store, add two records with distinct ids, the given key and the
    given values; [getCache(key)] then returns what it returned before
    followed by the two records in the order of their creation. *)
Theorem same_key_twice (s : Scenario.State) (key value1 value2 : string) :
  Store.well_formed (Job.world s) ->
  Store.outage (Job.world s) = None ->
  let s1 := snd (Scenario.createCache key value1 s) in
  let s2 := snd (Scenario.createCache key value2 s1) in
  exists before r1 r2,
    fst (Scenario.getCache key s) = Fulfilled before
    /\ Store.cache (Job.world s2) = Store.cache (Job.world s) ++ [r1; r2]
    /\ fst (Scenario.getCache key s2) = Fulfilled (before ++ [r1; r2])
    /\ ProcessCache.id r1 <> ProcessCache.id r2
    /\ ProcessCache.key r1 = key /\ ProcessCache.key r2 = key
    /\ ProcessCache.value r1 = value1 /\ ProcessCache.value r2 = value2.
Proof.
  intros Hwf Ho s1 s2.
  destruct (createCache_on_store key value1 s Hwf Ho) as (Hw1 & Hm1 & Hp1 & Hpj1).
  fold s1 in Hw1, Hm1, Hp1, Hpj1.
  assert (Store.well_formed (Job.world s1)) as Hwf1
    by (rewrite Hw1; apply insert_cache_well_formed; exact Hwf).
  assert (Store.outage (Job.world s1) = None) as Ho1 by (rewrite Hw1; exact Ho).
  destruct (createCache_on_store key value2 s1 Hwf1 Ho1) as (Hw2 & Hm2 & Hp2 & Hpj2).
  fold s2 in Hw2, Hm2, Hp2, Hpj2.
  assert (Store.outage (Job.world s2) = None) as Ho2 by (rewrite Hw2; exact Ho1).
  rewrite Hm1, Hp1, Hpj1 in Hw2. rewrite Hm1 in Hm2. rewrite Hp1 in Hp2. rewrite Hpj1 in Hpj2.
  eexists _, _, _.
  split; [apply getCache_on_store; exact Ho|].
  split; [rewrite Hw2, Hw1; simpl; rewrite <- app_assoc; reflexivity|].
  split.
  - rewrite (getCache_on_store key s2 Ho2), Hm2, Hp2, Hpj2, Hw2, Hw1. simpl Store.cache.
    unfold Store.matching. rewrite !List.filter_app. cbn [List.filter].
    rewrite !scoped_inserted, <- app_assoc. reflexivity.
  - simpl. repeat split; auto. lia.
Qed.

End StoreProperties.

(** * The controller on concrete inputs *)

Section Runs.
Import Promise.

Example first_run_leaves_store :
  Job.world Scenario.written = Scenario.stored_with Scenario.artifact_record.
Proof. vm_compute. reflexivity. Qed.

(** C5. [syncCache] at a record whose key names a property of
    [Object.prototype]: the store returns the one record keyed "constructor",
    the loop throws at it, the promise of [syncCache] is never settled and
    both index maps are left empty; a [load()] of a new instance over that
    store never settles and never reaches [onCacheExist]. *)
Theorem syncCache_constructor_key :
  Job.world Scenario.constructor_written = Scenario.stored_with Scenario.constructor_record
  /\ fst (Scenario.getFullCache Scenario.constructor_written)
     = Fulfilled [Scenario.constructor_record]
  /\ fst (Scenario.syncCache Scenario.constructor_written) = Pending
  /\ Job.cacheTree (Job.job (snd (Scenario.syncCache Scenario.constructor_written))) = ∅
  /\ Job.cacheResults (Job.job (snd (Scenario.syncCache Scenario.constructor_written))) = ∅
  /\ fst (Scenario.load Scenario.constructor_restarted) = Pending
  /\ Job.loaded (Job.job (snd (Scenario.load Scenario.constructor_restarted))) = false
  /\ Job.trace (snd (Scenario.load Scenario.constructor_restarted))
     = [Job.ProcessManagerLoad; Job.MachineLoad; Job.CreateProcess "build";
        Job.CreateJob "compile"; Job.MachineHasCache; Job.MachineGetFullCache].
Proof. vm_compute. repeat split; reflexivity. Qed.

(** C6. [createCache("constructor", "x")] on a loaded instance whose (empty)
    index mirrors the (empty) store: the record is stored and enters
    [cacheResults], no bucket is made for it in [cacheTree], and the promise
    of [createCache] is never settled. *)
Theorem createCache_constructor_key :
  Job.loaded (Job.job Scenario.ready) = true
  /\ Job.cacheTree (Job.job Scenario.ready) = Job.tree_of []
  /\ Job.cacheResults (Job.job Scenario.ready) = Job.results_of []
  /\ fst (Scenario.getFullCache Scenario.ready) = Fulfilled []
  /\ fst (Scenario.createCache "constructor" "x" Scenario.ready) = Pending
  /\ Job.world Scenario.constructor_written = Scenario.stored_with Scenario.constructor_record
  /\ fst (Scenario.getFullCache Scenario.constructor_written)
     = Fulfilled [Scenario.constructor_record]
  /\ Job.cacheResults (Job.job Scenario.constructor_written)
     = {[ 1 := Scenario.constructor_record ]}
  /\ Job.cacheTree (Job.job Scenario.constructor_written) = ∅.
Proof. vm_compute. repeat split; reflexivity. Qed.

(** C3, refuted as stated: on a new instance, before any [load()], every
    public operation goes through to the machine and fulfils, and
    [createCache] writes into the index. *)
Lemma operations_before_load_proceed :
  Job.loaded (Job.job Scenario.fresh) = false
  /\ is_fulfilled (fst (Scenario.createLog "started" Scenario.fresh)) = true
  /\ fst (Scenario.createCache "artifact-hash" "abc123" Scenario.fresh)
     = Fulfilled (ProcessCache.Build 1 0 0 "ci-1" "artifact-hash" "abc123" 0 0)
  /\ Job.cacheTree (Job.job (snd (Scenario.createCache "artifact-hash" "abc123" Scenario.fresh)))
     = {[ "artifact-hash" := [ProcessCache.Build 1 0 0 "ci-1" "artifact-hash" "abc123" 0 0] ]}
  /\ fst (Scenario.getCache "artifact-hash" Scenario.fresh) = Fulfilled []
  /\ fst (Scenario.hasCacheKey "artifact-hash" Scenario.fresh) = Fulfilled false
  /\ fst (Scenario.hasCache Scenario.fresh) = Fulfilled false
  /\ fst (Scenario.getFullCache Scenario.fresh) = Fulfilled [].
Proof. vm_compute. repeat split; reflexivity. Qed.

(** C4, refuted as stated: the database becomes unreachable after the
    process has been resolved. The promise of [load()] is not rejected (it is
    never settled), and the instance is left with a process and no job. *)
Lemma load_failure_leaves_process :
  fst (Scenario.load (Scenario.failing_after 3)) = Pending
  /\ (forall e, fst (Scenario.load (Scenario.failing_after 3)) <> Rejected e)
  /\ Job.process (Job.job (snd (Scenario.load (Scenario.failing_after 3))))
     = Some {| Store.process_id := 1; Store.process_name := "build" |}
  /\ Job.processJob (Job.job (snd (Scenario.load (Scenario.failing_after 3)))) = None
  /\ Job.loaded (Job.job (snd (Scenario.load (Scenario.failing_after 3)))) = false
  /\ Job.trace (snd (Scenario.load (Scenario.failing_after 3)))
     = [Job.ProcessManagerLoad; Job.MachineLoad; Job.CreateProcess "build";
        Job.CreateJob "compile"].
Proof. vm_compute. repeat split; try reflexivity. intros e; discriminate. Qed.

(** *** The general statements at these inputs *)


Lemma createCache_insert_failure_witness :
  Scenario.createCache "artifact-hash" "abc123"
    (Store.start (Job.job Scenario.ready) (Store.set_outage (Some 0%nat) (Job.world Scenario.ready)))
  = (Pending,
     {| Job.job := Job.job Scenario.ready;
        Job.world := Store.set_outage (Some 0%nat) (Job.world Scenario.ready);
        Job.trace := [Job.MachineCreateCache "artifact-hash" "abc123"] |}).
Proof.
  exact (proj1
           (createCache_insert_failure Store.machine "artifact-hash" "abc123"
              (Job.job Scenario.ready)
              (Store.set_outage (Some 0%nat) (Job.world Scenario.ready)) []
              (Rejected (Failure "database unreachable")) _ eq_refl eq_refl)).
Defined.

Lemma loaded_implies_identified_witness :
  Job.identified
    (Job.job
       (Job.exec_all Store.processManager Store.machine Store.idle
          [Job.CreateCache "early" "1"; Job.Load; Job.CreateCache "artifact-hash" "abc123";
           Job.GetCache "artifact-hash"; Job.Load]
          Scenario.fresh)).
Proof.
  exact (proj1
           (loaded_implies_identified Store.processManager Store.machine Store.idle
              [Job.CreateCache "early" "1"; Job.Load; Job.CreateCache "artifact-hash" "abc123";
               Job.GetCache "artifact-hash"; Job.Load]
              "build" "compile" "ci-1" Store.empty
              (conj (fun j w => conj eq_refl (conj eq_refl eq_refl))
                    (fun j w => conj eq_refl (conj eq_refl eq_refl))))).
Defined.

Lemma same_key_twice_witness :
  exists before r1 r2,
    fst (Scenario.getCache "artifact-hash" Scenario.restarted) = Fulfilled before
    /\ Store.cache
         (Job.world
            (snd (Scenario.createCache "artifact-hash" "ghi789"
                    (snd (Scenario.createCache "artifact-hash" "def456" Scenario.restarted)))))
       = Store.cache (Job.world Scenario.restarted) ++ [r1; r2]
    /\ fst (Scenario.getCache "artifact-hash"
              (snd (Scenario.createCache "artifact-hash" "ghi789"
                      (snd (Scenario.createCache "artifact-hash" "def456"
                              Scenario.restarted)))))
       = Fulfilled (before ++ [r1; r2])
    /\ ProcessCache.id r1 <> ProcessCache.id r2
    /\ ProcessCache.key r1 = "artifact-hash" /\ ProcessCache.key r2 = "artifact-hash"
    /\ ProcessCache.value r1 = "def456" /\ ProcessCache.value r2 = "ghi789".
Proof.
  assert (Store.well_formed (Job.world Scenario.restarted)) as Hwf.
  { repeat constructor. }
  exact (same_key_twice Scenario.restarted "artifact-hash" "def456" "ghi789" Hwf eq_refl).
Defined.

Lemma timestamps_are_caller_managed_witness :
  ProcessCache.create ProcessCache.ProcessCacheAttributeDefinition ProcessCache.init_options
    [] 0 1
    [ ("process", ProcessCache.VInt 1); ("job", ProcessCache.VInt 1);
      ("machine", ProcessCache.VStr "ci-1"); ("key", ProcessCache.VStr "artifact-hash");
      ("value", ProcessCache.VStr "abc123") ]
  = Some (ProcessCache.Build 1 1 1 "ci-1" "artifact-hash" "abc123" 0 0).
Proof.
  exact (proj2 (proj2 (proj2 (proj2
           (timestamps_are_caller_managed [] 1700000000 1
              [ ("process", ProcessCache.VInt 1); ("job", ProcessCache.VInt 1);
                ("machine", ProcessCache.VStr "ci-1");
                ("key", ProcessCache.VStr "artifact-hash");
                ("value", ProcessCache.VStr "abc123") ]
              (ProcessCache.Build 1 1 1 "ci-1" "artifact-hash" "abc123" 0 0) eq_refl))))
           0).
Defined.

End Runs.

(** * Further properties of the controller *)

Section JobCoverage.
Import Promise Job.

Context {Process ProcessJobModel ProcessJobLogModel ProcessLogTypes W : Type}.
Context (PM : ProcessManager Process ProcessJobModel W).
Context (M : Machine Process ProcessJobModel ProcessJobLogModel ProcessLogTypes W).
Context (H : Hooks Process ProcessJobModel W).

Lemma elem_of_bucket_of (rs : list ProcessCache.t) (k : string) (r : ProcessCache.t) :
  r ∈ bucket_of rs k <-> r ∈ rs /\ ProcessCache.key r = k.
Proof.
  unfold bucket_of. rewrite !list_elem_of_In, List.filter_In, bool_decide_eq_true.
  reflexivity.
Qed.

(** X1. When [syncCache()] fulfils, the index is a function of the fetched
    list alone: under every key lies the list of fetched records with that
    key, in the order they were returned (no bucket where there is none), and
    under every id the last fetched record with that id. The identities and
    the [loaded] flag are untouched. *)
Theorem syncCache_index (j : t Process ProcessJobModel) (w : W) (tr : list Event)
    (s' : Job.State Process ProcessJobModel W) :
  syncCache M {| job := j; world := w; trace := tr |} = (Fulfilled tt, s') ->
  exists rs,
    fst (Machine_getFullCache M (machine j) (process j) (processJob j) w) = Fulfilled rs
    /\ (forall k,
          cacheTree (job s') !! k
          = match bucket_of rs k with [] => None | b => Some b end)
    /\ (forall i, cacheResults (job s') !! i = last (with_id rs i))
    /\ process (job s') = process j
    /\ processJob (job s') = processJob j
    /\ loaded (job s') = loaded j.
Proof.
  intros Hsync.
  destruct (syncCache_fulfilled M _ _ _ _ Hsync) as (rs & w' & Hfull & _ & ->).
  exists rs. rewrite Hfull. simpl. repeat split.
  - intros k. apply tree_of_lookup.
  - intros i. apply results_of_lookup.
Qed.

(** X2. When [syncCache()] fulfils over records with distinct ids, the index
    holds exactly the fetched records: a record is in the id map under its id
    if and only if it was fetched, and it is in the bucket of its key if and
    only if it was fetched. *)
Theorem syncCache_exact (j : t Process ProcessJobModel) (w w' : W) (tr : list Event)
    (rs : list ProcessCache.t) (s' : Job.State Process ProcessJobModel W) :
  Machine_getFullCache M (machine j) (process j) (processJob j) w = (Fulfilled rs, w') ->
  syncCache M {| job := j; world := w; trace := tr |} = (Fulfilled tt, s') ->
  NoDup (map ProcessCache.id rs) ->
  forall r,
    (r ∈ rs <-> cacheResults (job s') !! ProcessCache.id r = Some r)
    /\ (r ∈ rs <-> exists b, cacheTree (job s') !! ProcessCache.key r = Some b /\ r ∈ b).
Proof.
  intros Hfull Hsync Hids r.
  destruct (syncCache_fulfilled M _ _ _ _ Hsync) as (rs' & w'' & Hfull' & _ & ->).
  rewrite Hfull in Hfull'. injection Hfull' as <- <-. simpl. split.
  - split.
    + apply results_of_unique. exact Hids.
    + intros Hl. apply results_of_sound in Hl. tauto.
  - rewrite tree_of_lookup. split.
    + intros Hin.
      assert (r ∈ bucket_of rs (ProcessCache.key r)) as Hb
        by (apply elem_of_bucket_of; auto).
      destruct (bucket_of rs (ProcessCache.key r)) as [|x b] eqn:Hbk.
      * inversion Hb.
      * exists (x :: b). auto.
    + intros (b & Hb & Hin).
      destruct (bucket_of rs (ProcessCache.key r)) as [|x b'] eqn:Hbk; [discriminate|].
      injection Hb as <-. rewrite <- Hbk in Hin. apply elem_of_bucket_of in Hin. tauto.
Qed.

(** X3. [syncCache()] empties both maps before it fetches: when
    [getFullCache()] does not fulfil, the promise is never settled and the
    instance is left with an empty index, whatever the index held before. *)
Theorem syncCache_failed_fetch (j : t Process ProcessJobModel) (w w' : W) (tr : list Event)
    (ct : gmap string (list ProcessCache.t)) (cr : gmap Z ProcessCache.t)
    (p : Promise.t (list ProcessCache.t)) :
  Machine_getFullCache M (machine j) (process j) (processJob j) w = (p, w') ->
  is_fulfilled p = false ->
  syncCache M {| job := set_cacheTree ct (set_cacheResults cr j); world := w; trace := tr |}
  = (Pending,
     {| job := set_cacheTree ∅ (set_cacheResults ∅ j); world := w';
        trace := tr ++ [MachineGetFullCache] |}).
Proof.
  intros Hfull Hp.
  rewrite (syncCache_fetch_fails M _ _ _ p w'); [reflexivity|exact Hfull|exact Hp].
Qed.

Lemma sync_records_app (a b : list ProcessCache.t) (s : Job.State Process ProcessJobModel W) :
  sync_records (a ++ b) s = bind (sync_records a) (fun _ => sync_records b) s.
Proof.
  revert s. induction a as [|r a IH]; intros s; simpl.
  - unfold bind, ret. reflexivity.
  - unfold bind in *. destruct (sync_record r s) as [[[]|e|] s1]; try reflexivity.
    apply IH.
Qed.

Lemma sync_records_stop (pre post : list ProcessCache.t) (r : ProcessCache.t)
    (j : t Process ProcessJobModel) (w : W) (tr : list Event) :
  ordinary_keys pre ->
  JsObject.inherited (ProcessCache.key r) = true ->
  sync_records (pre ++ r :: post)
    {| job := set_cacheTree ∅ (set_cacheResults ∅ j); world := w; trace := tr |}
  = (Rejected (TypeError "this.cacheTree[...].push is not a function"),
     {| job := indexed pre j; world := w; trace := tr |}).
Proof.
  intros Hpre Hr. rewrite sync_records_app. unfold bind at 1.
  rewrite (sync_records_ordinary _ Hpre). simpl. unfold bind.
  rewrite sync_record_inherited; [reflexivity|exact Hr|].
  simpl. apply (tree_of_ordinary pre Hpre). exact Hr.
Qed.

(** X4. Given the records [getFullCache()] returns, [syncCache()] fulfils
    exactly when none of their keys names a property of [Object.prototype].
    Otherwise it stops at the first such record: the promise is never settled
    and the index holds the records that came before it, and no other. *)
Theorem syncCache_prototype_key (j : t Process ProcessJobModel) (w w' : W)
    (tr : list Event) (rs : list ProcessCache.t) :
  Machine_getFullCache M (machine j) (process j) (processJob j) w = (Fulfilled rs, w') ->
  (fst (syncCache M {| job := j; world := w; trace := tr |}) = Fulfilled tt
   <-> ordinary_keys rs)
  /\ (forall pre r post,
        rs = pre ++ r :: post ->
        ordinary_keys pre ->
        JsObject.inherited (ProcessCache.key r) = true ->
        syncCache M {| job := j; world := w; trace := tr |}
        = (Pending,
           {| job := indexed pre j; world := w'; trace := tr ++ [MachineGetFullCache] |})).
Proof.
  intros Hfull. split.
  - split.
    + intros Hf.
      destruct (syncCache M {| job := j; world := w; trace := tr |}) as [o s'] eqn:Hsync.
      simpl in Hf. subst o.
      destruct (syncCache_fulfilled M _ _ _ _ Hsync) as (rs' & w'' & Hfull' & Hrs & _).
      rewrite Hfull in Hfull'. injection Hfull' as <- <-. exact Hrs.
    + intros Hrs. rewrite (syncCache_ordinary M _ _ _ _ _ Hfull Hrs). reflexivity.
  - intros pre r post -> Hpre Hr.
    unfold syncCache, resolve_only, bind at 1 2 3, assign, getFullCache, this, call. simpl.
    rewrite Hfull.
    pose proof (sync_records_stop pre post r j w' (tr ++ [MachineGetFullCache]) Hpre Hr)
      as Hstop.
    rewrite Hstop. reflexivity.
Qed.

(** X5. When the machine's insert fulfils with a record whose key names no
    property of [Object.prototype], [createCache] fulfils with that same
    record; the record is the new last element of the bucket of its key and
    the entry of its id; every other bucket and every other id entry is as
    before, and so are the identities and the [loaded] flag. *)
Theorem createCache_appends (key value : string) (j : t Process ProcessJobModel) (w w' : W)
    (tr : list Event) (r : ProcessCache.t) :
  Machine_createCache M (machine j) (process j) (processJob j) key value w = (Fulfilled r, w') ->
  JsObject.inherited (ProcessCache.key r) = false ->
  exists j',
    createCache M key value {| job := j; world := w; trace := tr |}
    = (Fulfilled r,
       {| job := j'; world := w'; trace := tr ++ [MachineCreateCache key value] |})
    /\ cacheTree j' !! ProcessCache.key r
       = Some (default [] (cacheTree j !! ProcessCache.key r) ++ [r])
    /\ (forall k, k <> ProcessCache.key r -> cacheTree j' !! k = cacheTree j !! k)
    /\ cacheResults j' !! ProcessCache.id r = Some r
    /\ (forall i, i <> ProcessCache.id r -> cacheResults j' !! i = cacheResults j !! i)
    /\ process j' = process j /\ processJob j' = processJob j /\ loaded j' = loaded j.
Proof.
  intros Hc Hk. eexists. split; [apply (createCache_ordinary M _ _ _ _ _ _ _ Hc Hk)|].
  simpl. unfold tree_add, results_add. repeat split.
  - apply lookup_insert_eq.
  - intros k Hne. apply lookup_insert_ne. congruence.
  - apply lookup_insert_eq.
  - intros i Hne. apply lookup_insert_ne. congruence.
Qed.

(** X6. When two [createCache] calls in a row with the same key both have
    their insert fulfil, with records that carry that key, and the key names
    no property of [Object.prototype], both calls fulfil and leave the two
    records at the end of that key's bucket in the order of the calls, after
    whatever the bucket held, and every other bucket as it was. *)
Theorem createCache_twice_in_order (key value1 value2 : string)
    (j : t Process ProcessJobModel) (w w1 w2 : W) (tr : list Event)
    (r1 r2 : ProcessCache.t) :
  Machine_createCache M (machine j) (process j) (processJob j) key value1 w = (Fulfilled r1, w1) ->
  Machine_createCache M (machine j) (process j) (processJob j) key value2 w1 = (Fulfilled r2, w2) ->
  ProcessCache.key r1 = key ->
  ProcessCache.key r2 = key ->
  JsObject.inherited key = false ->
  exists s1 j2,
    createCache M key value1 {| job := j; world := w; trace := tr |} = (Fulfilled r1, s1)
    /\ createCache M key value2 s1
       = (Fulfilled r2,
          {| job := j2; world := w2;
             trace := tr ++ [MachineCreateCache key value1; MachineCreateCache key value2] |})
    /\ cacheTree j2 !! key = Some (default [] (cacheTree j !! key) ++ [r1; r2])
    /\ (forall k, k <> key -> cacheTree j2 !! k = cacheTree j !! k).
Proof.
  intros Hc1 Hc2 Hk1 Hk2 Hk.
  assert (JsObject.inherited (ProcessCache.key r1) = false) as Hi1 by (rewrite Hk1; exact Hk).
  assert (JsObject.inherited (ProcessCache.key r2) = false) as Hi2 by (rewrite Hk2; exact Hk).
  eexists _, _. split; [apply (createCache_ordinary M _ _ _ _ _ _ _ Hc1 Hi1)|].
  split.
  - rewrite (createCache_ordinary M key value2 _ _ _ r2 w2); [|exact Hc2|exact Hi2].
    rewrite <- app_assoc. reflexivity.
  - simpl. unfold tree_add. rewrite Hk1, Hk2. split.
    + rewrite lookup_insert_eq, lookup_insert_eq. simpl. rewrite <- app_assoc. reflexivity.
    + intros k Hne. rewrite !lookup_insert_ne by congruence. reflexivity.
Qed.

(** X7. On an instance whose index is the one built from the stored
    records, when the insert of [createCache] fulfils, the store then hands
    back the old records followed by the new one, and none of these records
    has a key naming a property of [Object.prototype], a [syncCache()] run
    right after [createCache] fulfils and rebuilds the very same instance:
    the incremental update and the full rebuild agree. *)
Theorem createCache_then_sync (key value : string) (j : t Process ProcessJobModel)
    (w w' w'' : W) (tr : list Event) (rs : list ProcessCache.t) (r : ProcessCache.t) :
  cacheTree j = tree_of rs ->
  cacheResults j = results_of rs ->
  Machine_createCache M (machine j) (process j) (processJob j) key value w = (Fulfilled r, w') ->
  Machine_getFullCache M (machine j) (process j) (processJob j) w' = (Fulfilled (rs ++ [r]), w'') ->
  ordinary_keys (rs ++ [r]) ->
  exists s1,
    createCache M key value {| job := j; world := w; trace := tr |} = (Fulfilled r, s1)
    /\ fst (syncCache M s1) = Fulfilled tt
    /\ job (snd (syncCache M s1)) = job s1.
Proof.
  intros Ht Hr Hc Hfull Hord.
  assert (JsObject.inherited (ProcessCache.key r) = false) as Hk.
  { apply Forall_app in Hord as [_ Hord]. inversion Hord; assumption. }
  eexists. split; [apply (createCache_ordinary M _ _ _ _ _ _ _ Hc Hk)|].
  rewrite (syncCache_ordinary M _ _ _ (rs ++ [r]) w''); [|exact Hfull|exact Hord].
  simpl. split; [reflexivity|].
  unfold indexed. rewrite tree_of_snoc, results_of_snoc, <- Ht, <- Hr.
  destruct j; reflexivity.
Qed.

(** X8. Whatever its outcome, [createCache] makes one call, the machine's
    insert with the key and the value given; it never fetches, and it never
    changes the machine name, the identities or the [loaded] flag. *)
Theorem createCache_single_call (key value : string)
    (s : Job.State Process ProcessJobModel W) :
  trace (snd (createCache M key value s)) = trace s ++ [MachineCreateCache key value]
  /\ world (snd (createCache M key value s))
     = snd (Machine_createCache M (machine (job s)) (process (job s)) (processJob (job s))
              key value (world s))
  /\ machine (job (snd (createCache M key value s))) = machine (job s)
  /\ process (job (snd (createCache M key value s))) = process (job s)
  /\ processJob (job (snd (createCache M key value s))) = processJob (job s)
  /\ loaded (job (snd (createCache M key value s))) = loaded (job s).
Proof.
  destruct (createCache_world M key value s) as (Hw & Hm & Hp & Hpj).
  destruct (createCache_frame M key value s) as (ct & cr & w & Hs).
  rewrite Hs in *. simpl in *. repeat split; assumption.
Qed.

(** X9. [createLog], [getCache], [hasCacheKey], [hasCache] and
    [getFullCache] answer from the machine, not from the local index: their
    promise is the same whatever [cacheTree] and [cacheResults] hold; each
    makes exactly one call and leaves the instance as it was. *)
Theorem reads_go_to_the_machine (j : t Process ProcessJobModel) (w : W) (tr : list Event)
    (ct : gmap string (list ProcessCache.t)) (cr : gmap Z ProcessCache.t)
    (key message : string) (logType : ProcessLogTypes) :
  let s := {| job := j; world := w; trace := tr |} in
  let s' := {| job := set_cacheTree ct (set_cacheResults cr j); world := w; trace := tr |} in
  (fst (createLog M message logType s') = fst (createLog M message logType s)
   /\ job (snd (createLog M message logType s)) = j
   /\ trace (snd (createLog M message logType s)) = tr ++ [MachineCreateLog message])
  /\ (fst (getCache M key s') = fst (getCache M key s)
      /\ job (snd (getCache M key s)) = j
      /\ trace (snd (getCache M key s)) = tr ++ [MachineGetCache key])
  /\ (fst (hasCacheKey M key s') = fst (hasCacheKey M key s)
      /\ job (snd (hasCacheKey M key s)) = j
      /\ trace (snd (hasCacheKey M key s)) = tr ++ [MachineHasCacheKey key])
  /\ (fst (hasCache M s') = fst (hasCache M s)
      /\ job (snd (hasCache M s)) = j
      /\ trace (snd (hasCache M s)) = tr ++ [MachineHasCache])
  /\ (fst (getFullCache M s') = fst (getFullCache M s)
      /\ job (snd (getFullCache M s)) = j
      /\ trace (snd (getFullCache M s)) = tr ++ [MachineGetFullCache]).
Proof.
  intros s s'. subst s s'.
  unfold createLog, getCache, hasCacheKey, hasCache, getFullCache, this, call. simpl.
  repeat split;
    match goal with
    | |- context [let '(_, _) := ?c in _] => destruct c; reflexivity
    end.
Qed.

(** *** The shape of the index is kept *)

Lemma tree_wf_ordinary (m : gmap string (list ProcessCache.t)) :
  tree_wf m -> ordinary_tree m.
Proof.
  intros Hm k Hk. destruct (m !! k) as [b|] eqn:Hb; [|reflexivity].
  destruct (Hm k b Hb) as (Hi & _). congruence.
Qed.

Lemma tree_add_wf (m : gmap string (list ProcessCache.t)) (r : ProcessCache.t) :
  JsObject.inherited (ProcessCache.key r) = false -> tree_wf m -> tree_wf (tree_add m r).
Proof.
  intros Hr Hm k b. unfold tree_add.
  destruct (decide (ProcessCache.key r = k)) as [Heq|Hne].
  - rewrite Heq, lookup_insert_eq. intros [= <-]. split; [rewrite <- Heq; exact Hr|]. split.
    + destruct (default [] (m !! k)); discriminate.
    + apply Forall_app. split; [|repeat constructor; exact Heq].
      destruct (m !! k) as [b|] eqn:Hb; [|constructor]. apply (Hm k b Hb).
  - rewrite lookup_insert_ne by exact Hne. apply Hm.
Qed.

Lemma results_add_wf (m : gmap Z ProcessCache.t) (r : ProcessCache.t) :
  results_wf m -> results_wf (results_add m r).
Proof.
  intros Hm i x. unfold results_add.
  destruct (decide (ProcessCache.id r = i)) as [Heq|Hne].
  - rewrite Heq, lookup_insert_eq. intros [= <-]. exact Heq.
  - rewrite lookup_insert_ne by exact Hne. apply Hm.
Qed.

Lemma sync_record_wf (r : ProcessCache.t) (s : Job.State Process ProcessJobModel W) :
  index_wf (job s) -> index_wf (job (snd (sync_record r s))).
Proof.
  destruct s as [j w tr]. intros [Ht Hr].
  destruct (JsObject.inherited (ProcessCache.key r)) eqn:Hk.
  - rewrite sync_record_inherited; [split; assumption|exact Hk|].
    apply (tree_wf_ordinary _ Ht). exact Hk.
  - rewrite (sync_record_ordinary _ _ _ _ Hk). split; simpl.
    + apply tree_add_wf; assumption.
    + apply results_add_wf; assumption.
Qed.

Lemma sync_records_wf (rs : list ProcessCache.t) :
  forall s : Job.State Process ProcessJobModel W,
    index_wf (job s) -> index_wf (job (snd (sync_records rs s))).
Proof.
  induction rs as [|r rs IH]; intros s Hs; simpl; [exact Hs|].
  unfold bind. pose proof (sync_record_wf r s Hs) as Hstep.
  destruct (sync_record r s) as [[[]|e|] s1]; simpl in *; auto.
Qed.

Lemma empty_index_wf (j : t Process ProcessJobModel) :
  index_wf (set_cacheTree ∅ (set_cacheResults ∅ j)).
Proof.
  split; simpl.
  - intros k b Hb. rewrite lookup_empty in Hb. discriminate.
  - intros i r Hr. rewrite lookup_empty in Hr. discriminate.
Qed.

Lemma syncCache_wf (s : Job.State Process ProcessJobModel W) :
  index_wf (job (snd (syncCache M s))).
Proof.
  destruct s as [j w tr].
  unfold syncCache, resolve_only, bind at 1 2 3, assign, getFullCache, this, call. simpl.
  destruct (Machine_getFullCache M (machine j) (process j) (processJob j) w)
    as [[rs|e|] w']; simpl; try apply empty_index_wf.
  match goal with |- context [sync_records rs ?s0] =>
    pose proof (sync_records_wf rs s0 (empty_index_wf j)) as Hloop;
    destruct (sync_records rs s0) as [[[]|e|] s1] end; exact Hloop.
Qed.

Lemma createCache_wf (key value : string) (s : Job.State Process ProcessJobModel W) :
  index_wf (job s) -> index_wf (job (snd (createCache M key value s))).
Proof.
  destruct s as [j w tr]. intros [Ht Hr].
  destruct (Machine_createCache M (machine j) (process j) (processJob j) key value w)
    as [p w'] eqn:Hc.
  destruct p as [r|e|].
  - destruct (JsObject.inherited (ProcessCache.key r)) eqn:Hk.
    + rewrite (createCache_inherited M _ _ _ _ _ _ _ Hc Hk);
        [|apply (tree_wf_ordinary _ Ht); exact Hk].
      split; simpl; [exact Ht|apply results_add_wf; exact Hr].
    + rewrite (createCache_ordinary M _ _ _ _ _ _ _ Hc Hk).
      split; simpl; [apply tree_add_wf; assumption|apply results_add_wf; exact Hr].
  - unfold createCache, resolve_only, bind at 1, this at 1, call at 1. simpl.
    rewrite Hc. split; assumption.
  - unfold createCache, resolve_only, bind at 1, this at 1, call at 1. simpl.
    rewrite Hc. split; assumption.
Qed.

Lemma load_wf (s : Job.State Process ProcessJobModel W) :
  keeps_index H -> index_wf (job s) -> index_wf (job (snd (load PM M H s))).
Proof.
  intros Hhooks. destruct s as [j w tr]. simpl. intros Hj.
  destruct (loaded j) eqn:Hl.
  { rewrite load_loaded by exact Hl. exact Hj. }
  unfold load, resolve_only, this at 1. simpl. rewrite Hl.
  unfold bind at 1, call at 1. simpl.
  destruct (ProcessManager_load PM w) as [[[]|e|] w1]; simpl; try exact Hj.
  unfold bind at 1, this at 1, call at 1. simpl.
  destruct (Machine_load M (machine j) w1) as [[[]|e|] w2]; simpl; try exact Hj.
  unfold bind at 1, this at 1, call at 1. simpl.
  destruct (ProcessManager_createProcess PM (processName j) w2) as [[p|e|] w3]; simpl;
    try exact Hj.
  unfold bind at 1, assign at 1. simpl.
  unfold bind at 1, this at 1, call at 1. simpl.
  destruct (ProcessManager_createJob PM p (jobName j) w3) as [[pj|e|] w4]; simpl;
    try exact Hj.
  unfold bind at 1, assign at 1. simpl.
  unfold bind at 1, hasCache, this at 1, call at 1. simpl.
  destruct (Machine_hasCache M (machine j) (Some p) (Some pj) w4) as [[found|e|] w5]; simpl;
    try exact Hj.
  unfold bind at 1. destruct found.
  - unfold bind at 1.
    match goal with |- context [syncCache M ?s0] =>
      pose proof (syncCache_wf s0) as Hs;
      destruct (syncCache M s0) as [[[]|e|] s1] end; simpl in *; try exact Hs.
    unfold dispatch, assign. simpl.
    destruct (Hhooks (job s1) (world s1) Hs) as [Hexist _].
    destruct (onCacheExist H (job s1) (world s1)) as [[[]|e|] [j' w7]]; simpl in *;
      exact Hexist.
  - unfold dispatch, assign. simpl.
    match goal with |- context [onCacheEmpty H ?j0 ?w0] =>
      destruct (Hhooks j0 w0 Hj) as [_ Hempty];
      destruct (onCacheEmpty H j0 w0) as [[[]|e|] [j' w6]] end; simpl in *; exact Hempty.
Qed.

Lemma exec_wf (op : Op ProcessLogTypes) (s : Job.State Process ProcessJobModel W) :
  keeps_index H -> index_wf (job s) -> index_wf (job (exec PM M H op s)).
Proof.
  intros Hhooks Hs. destruct op; simpl.
  - apply load_wf; assumption.
  - apply syncCache_wf.
  - unfold createLog, this, call. destruct (Machine_createLog _ _ _ _ _ _ _). exact Hs.
  - apply createCache_wf. exact Hs.
  - unfold getCache, this, call. destruct (Machine_getCache _ _ _ _ _ _). exact Hs.
  - unfold hasCacheKey, this, call. destruct (Machine_hasCacheKey _ _ _ _ _ _). exact Hs.
  - unfold hasCache, this, call. destruct (Machine_hasCache _ _ _ _ _). exact Hs.
  - unfold getFullCache, this, call. destruct (Machine_getFullCache _ _ _ _ _). exact Hs.
Qed.

Lemma exec_all_wf (ops : list (Op ProcessLogTypes)) :
  keeps_index H ->
  forall s : Job.State Process ProcessJobModel W,
    index_wf (job s) -> index_wf (job (exec_all PM M H ops s)).
Proof.
  intros Hhooks. unfold exec_all.
  induction ops as [|op ops IH]; intros s Hs; simpl; [exact Hs|].
  apply IH. apply exec_wf; assumption.
Qed.

(** X10. After any sequence of operations on a new instance, every bucket
    of [cacheTree] is non-empty, holds only records whose key is the one it
    is filed under, and is filed under a name [Object.prototype] does not
    define; every record of [cacheResults] is filed under its own id. The
    subclass hooks are taken to keep the index in that shape. *)
Theorem index_shape_is_kept (ops : list (Op ProcessLogTypes))
    (processName jobName machineName : string) (w : W) (k : string)
    (b : list ProcessCache.t) (i : Z) (r : ProcessCache.t) :
  keeps_index H ->
  let j := job (exec_all PM M H ops
                  {| job := new processName jobName machineName; world := w; trace := [] |}) in
  (cacheTree j !! k = Some b ->
   b <> [] /\ Forall (fun x => ProcessCache.key x = k) b /\ JsObject.inherited k = false)
  /\ (cacheResults j !! i = Some r -> ProcessCache.id r = i).
Proof.
  intros Hhooks j.
  assert (index_wf j) as [Ht Hr].
  { apply exec_all_wf; [exact Hhooks|]. split; simpl.
    - intros k' b' Hb. rewrite lookup_empty in Hb. discriminate.
    - intros i' r' Hr. rewrite lookup_empty in Hr. discriminate. }
  split.
  - intros Hb. destruct (Ht k b Hb) as (Hi & Hne & Hall). auto.
  - apply Hr.
Qed.

(** X11. On an instance reached from a new one by any sequence of
    operations, with subclass hooks that keep the index in the shape of X10
    (in particular no bucket filed under a name [Object.prototype] defines),
    a [createCache] whose insert fulfils with a record carrying a key that
    names a property of [Object.prototype] never settles: the record enters
    [cacheResults], and [cacheTree] is left as it was. *)
Theorem createCache_prototype_key (ops : list (Op ProcessLogTypes))
    (processName jobName machineName key value : string) (w w' : W) (r : ProcessCache.t) :
  keeps_index H ->
  let s := exec_all PM M H ops
             {| job := new processName jobName machineName; world := w; trace := [] |} in
  Machine_createCache M (machine (job s)) (process (job s)) (processJob (job s))
    key value (world s) = (Fulfilled r, w') ->
  JsObject.inherited (ProcessCache.key r) = true ->
  createCache M key value s
  = (Pending,
     {| job := set_cacheResults (results_add (cacheResults (job s)) r) (job s);
        world := w';
        trace := trace s ++ [MachineCreateCache key value] |}).
Proof.
  intros Hhooks s Hc Hk.
  assert (index_wf (job s)) as [Ht _].
  { apply exec_all_wf; [exact Hhooks|]. split; simpl.
    - intros k' b' Hb. rewrite lookup_empty in Hb. discriminate.
    - intros i' r' Hr. rewrite lookup_empty in Hr. discriminate. }
  destruct s as [j0 w0 tr0]. simpl in *.
  apply (createCache_inherited M _ _ _ _ _ _ _ Hc Hk).
  apply (tree_wf_ordinary _ Ht). exact Hk.
Qed.

(** X12. Once [loaded] is true, no sequence of operations changes the flag,
    the process or the job: the identities are resolved once and kept,
    whatever the hooks of the subclass do. *)
Theorem loaded_is_final (ops : list (Op ProcessLogTypes))
    (s : Job.State Process ProcessJobModel W) :
  loaded (job s) = true ->
  loaded (job (exec_all PM M H ops s)) = true
  /\ process (job (exec_all PM M H ops s)) = process (job s)
  /\ processJob (job (exec_all PM M H ops s)) = processJob (job s).
Proof.
  unfold exec_all. revert s.
  induction ops as [|op ops IH]; intros s Hl; simpl; [auto|].
  assert (loaded (job (exec PM M H op s)) = true
          /\ process (job (exec PM M H op s)) = process (job s)
          /\ processJob (job (exec PM M H op s)) = processJob (job s)) as (Hl' & Hp & Hpj).
  { assert (op = Load \/ op <> Load) as [->|Hop]
      by (destruct op; (left; reflexivity) || (right; discriminate)).
    - simpl. rewrite (load_loaded PM M H s Hl). auto.
    - destruct (exec_keeps_lifecycle PM M H op s Hop) as (-> & -> & ->). auto. }
  destruct (IH _ Hl') as (Hl'' & Hp' & Hpj'). rewrite Hp', Hpj'. auto.
Qed.

(** The calls of one [load()], given the list it was working through. *)
Lemma load_calls_within (j : t Process ProcessJobModel) (tr : list Event)
    (calls full : list Event) (o : Promise.t unit) :
  calls `prefix_of` full ->
  (o = Fulfilled tt -> calls = full) ->
  forall tr',
    tr' = tr ++ calls ->
    full = [ProcessManagerLoad; MachineLoad; CreateProcess (processName j);
            CreateJob (jobName j); MachineHasCache; MachineGetFullCache; OnCacheExist]
    \/ full = [ProcessManagerLoad; MachineLoad; CreateProcess (processName j);
               CreateJob (jobName j); MachineHasCache; OnCacheEmpty] ->
    exists calls,
      tr' = tr ++ calls
      /\ (calls `prefix_of` [ProcessManagerLoad; MachineLoad; CreateProcess (processName j);
                             CreateJob (jobName j); MachineHasCache]
                            ++ [MachineGetFullCache; OnCacheExist]
          \/ calls `prefix_of` [ProcessManagerLoad; MachineLoad;
                                CreateProcess (processName j); CreateJob (jobName j);
                                MachineHasCache] ++ [OnCacheEmpty])
      /\ (o = Fulfilled tt ->
          calls = []
          \/ calls = [ProcessManagerLoad; MachineLoad; CreateProcess (processName j);
                      CreateJob (jobName j); MachineHasCache]
                     ++ [MachineGetFullCache; OnCacheExist]
          \/ calls = [ProcessManagerLoad; MachineLoad; CreateProcess (processName j);
                      CreateJob (jobName j); MachineHasCache] ++ [OnCacheEmpty]).
Proof.
  intros Hpre Hfull tr' -> [->| ->]; exists calls; simpl;
    (split; [reflexivity|]); (split; [auto|]); intros Ho; specialize (Hfull Ho); auto.
Qed.

(** X13. The calls one [load()] makes are an initial part of one of two
    fixed sequences: manager load, machine load, process resolution, job
    resolution, existence check, and then either the fetch followed by
    [onCacheExist], or [onCacheEmpty]. It makes no other call (no insert, no
    log, no keyed query), at most one hook call, and it fulfils only after
    none of them (already loaded) or after a whole sequence. *)
Theorem load_call_order (s : Job.State Process ProcessJobModel W) :
  let resolution := [ProcessManagerLoad; MachineLoad; CreateProcess (processName (job s));
                     CreateJob (jobName (job s)); MachineHasCache] in
  exists calls,
    trace (snd (load PM M H s)) = trace s ++ calls
    /\ (calls `prefix_of` resolution ++ [MachineGetFullCache; OnCacheExist]
        \/ calls `prefix_of` resolution ++ [OnCacheEmpty])
    /\ (fst (load PM M H s) = Fulfilled tt ->
        calls = []
        \/ calls = resolution ++ [MachineGetFullCache; OnCacheExist]
        \/ calls = resolution ++ [OnCacheEmpty]).
Proof.
  intros resolution. subst resolution. destruct s as [j w tr]. simpl job. simpl trace.
  destruct (load PM M H {| job := j; world := w; trace := tr |}) as [o s'] eqn:Hload.
  simpl fst. simpl snd. revert Hload.
  destruct (loaded j) eqn:Hl.
  { rewrite load_loaded by exact Hl. intros [= <- <-]. exists []. simpl. rewrite app_nil_r.
    split; [reflexivity|]. split; [left; apply prefix_nil|auto]. }
  unfold load, resolve_only, this at 1. simpl. rewrite Hl.
  unfold bind at 1, call at 1. simpl.
  destruct (ProcessManager_load PM w) as [[[]|e|] w1]; simpl;
    try (intros [= <- <-]; simpl; eapply (load_calls_within j tr);
         [|discriminate|rewrite <- ?app_assoc; reflexivity|left; reflexivity];
         eexists; reflexivity).
  unfold bind at 1, this at 1, call at 1. simpl.
  destruct (Machine_load M (machine j) w1) as [[[]|e|] w2]; simpl;
    try (intros [= <- <-]; simpl; eapply (load_calls_within j tr);
         [|discriminate|rewrite <- ?app_assoc; reflexivity|left; reflexivity];
         eexists; reflexivity).
  unfold bind at 1, this at 1, call at 1. simpl.
  destruct (ProcessManager_createProcess PM (processName j) w2) as [[p|e|] w3]; simpl;
    try (intros [= <- <-]; simpl; eapply (load_calls_within j tr);
         [|discriminate|rewrite <- ?app_assoc; reflexivity|left; reflexivity];
         eexists; reflexivity).
  unfold bind at 1, assign at 1. simpl.
  unfold bind at 1, this at 1, call at 1. simpl.
  destruct (ProcessManager_createJob PM p (jobName j) w3) as [[pj|e|] w4]; simpl;
    try (intros [= <- <-]; simpl; eapply (load_calls_within j tr);
         [|discriminate|rewrite <- ?app_assoc; reflexivity|left; reflexivity];
         eexists; reflexivity).
  unfold bind at 1, assign at 1. simpl.
  unfold bind at 1, hasCache, this at 1, call at 1. simpl.
  destruct (Machine_hasCache M (machine j) (Some p) (Some pj) w4) as [[found|e|] w5]; simpl;
    try (intros [= <- <-]; simpl; eapply (load_calls_within j tr);
         [|discriminate|rewrite <- ?app_assoc; reflexivity|left; reflexivity];
         eexists; reflexivity).
  unfold bind at 1. destruct found.
  - unfold bind at 1.
    match goal with |- context [syncCache M ?s0] =>
      destruct (syncCache_frame M s0) as (ct & cr & w6 & Hs);
      destruct (syncCache M s0) as [[[]|e|] s1] end;
      simpl in Hs; subst s1; simpl;
      try (intros [= <- <-]; simpl; eapply (load_calls_within j tr);
           [|discriminate|rewrite <- ?app_assoc; reflexivity|left; reflexivity];
           eexists; reflexivity).
    unfold dispatch, assign. simpl.
    match goal with |- context [onCacheExist H ?j0 ?w0] =>
      destruct (onCacheExist H j0 w0) as [[[]|e|] [j' w7]] end; simpl;
      intros [= <- <-]; simpl;
      (eapply (load_calls_within j tr);
       [exists []; rewrite app_nil_r; reflexivity|first [discriminate|reflexivity]
       |rewrite <- ?app_assoc; reflexivity|left; reflexivity]).
  - unfold dispatch, assign. simpl.
    match goal with |- context [onCacheEmpty H ?j0 ?w0] =>
      destruct (onCacheEmpty H j0 w0) as [[[]|e|] [j' w6]] end; simpl;
      intros [= <- <-]; simpl;
      (eapply (load_calls_within j tr);
       [exists []; rewrite app_nil_r; reflexivity|first [discriminate|reflexivity]
       |rewrite <- ?app_assoc; reflexivity|right; reflexivity]).
Qed.

(** *** [load] up to the existence check *)

Lemma load_stops_at_processManager (j : t Process ProcessJobModel) (w w1 : W)
    (tr : list Event) (o : Promise.t unit) :
  loaded j = false ->
  ProcessManager_load PM w = (o, w1) ->
  is_fulfilled o = false ->
  load PM M H {| job := j; world := w; trace := tr |}
  = (Pending, {| job := j; world := w1; trace := tr ++ [ProcessManagerLoad] |}).
Proof.
  intros Hl H1 Ho. unfold load, resolve_only, this at 1. simpl. rewrite Hl.
  unfold bind at 1, call at 1. simpl. rewrite H1.
  destruct o; simpl in *; try discriminate; reflexivity.
Qed.

Lemma load_stops_at_machine (j : t Process ProcessJobModel) (w w1 w2 : W)
    (tr : list Event) (o : Promise.t unit) :
  loaded j = false ->
  ProcessManager_load PM w = (Fulfilled tt, w1) ->
  Machine_load M (machine j) w1 = (o, w2) ->
  is_fulfilled o = false ->
  load PM M H {| job := j; world := w; trace := tr |}
  = (Pending,
     {| job := j; world := w2; trace := (tr ++ [ProcessManagerLoad]) ++ [MachineLoad] |}).
Proof.
  intros Hl H1 H2 Ho. unfold load, resolve_only, this at 1. simpl. rewrite Hl.
  unfold bind at 1, call at 1. simpl. rewrite H1.
  unfold bind at 1, this at 1, call at 1. simpl. rewrite H2.
  destruct o; simpl in *; try discriminate; reflexivity.
Qed.

Lemma load_stops_at_process (j : t Process ProcessJobModel) (w w1 w2 w3 : W)
    (tr : list Event) (o : Promise.t Process) :
  loaded j = false ->
  ProcessManager_load PM w = (Fulfilled tt, w1) ->
  Machine_load M (machine j) w1 = (Fulfilled tt, w2) ->
  ProcessManager_createProcess PM (processName j) w2 = (o, w3) ->
  is_fulfilled o = false ->
  load PM M H {| job := j; world := w; trace := tr |}
  = (Pending,
     {| job := j; world := w3;
        trace := ((tr ++ [ProcessManagerLoad]) ++ [MachineLoad])
                 ++ [CreateProcess (processName j)] |}).
Proof.
  intros Hl H1 H2 H3 Ho. unfold load, resolve_only, this at 1. simpl. rewrite Hl.
  unfold bind at 1, call at 1. simpl. rewrite H1.
  unfold bind at 1, this at 1, call at 1. simpl. rewrite H2.
  unfold bind at 1, this at 1, call at 1. simpl. rewrite H3.
  destruct o; simpl in *; try discriminate; reflexivity.
Qed.

Lemma load_stops_at_job (j : t Process ProcessJobModel) (w w1 w2 w3 w4 : W)
    (tr : list Event) (p : Process) (o : Promise.t ProcessJobModel) :
  loaded j = false ->
  ProcessManager_load PM w = (Fulfilled tt, w1) ->
  Machine_load M (machine j) w1 = (Fulfilled tt, w2) ->
  ProcessManager_createProcess PM (processName j) w2 = (Fulfilled p, w3) ->
  ProcessManager_createJob PM p (jobName j) w3 = (o, w4) ->
  is_fulfilled o = false ->
  load PM M H {| job := j; world := w; trace := tr |}
  = (Pending,
     {| job := set_process (Some p) j; world := w4;
        trace := (((tr ++ [ProcessManagerLoad]) ++ [MachineLoad])
                  ++ [CreateProcess (processName j)]) ++ [CreateJob (jobName j)] |}).
Proof.
  intros Hl H1 H2 H3 H4 Ho. unfold load, resolve_only, this at 1. simpl. rewrite Hl.
  unfold bind at 1, call at 1. simpl. rewrite H1.
  unfold bind at 1, this at 1, call at 1. simpl. rewrite H2.
  unfold bind at 1, this at 1, call at 1. simpl. rewrite H3.
  unfold bind at 1, assign at 1. simpl.
  unfold bind at 1, this at 1, call at 1. simpl. rewrite H4.
  destruct o; simpl in *; try discriminate; reflexivity.
Qed.

(** Past the two resolutions, [load] goes on from the instance that carries
    both identities; what the fields held before plays no part. *)
Lemma load_after_resolution (j : t Process ProcessJobModel) (w w1 w2 w3 w4 : W)
    (tr : list Event) (p : Process) (pj : ProcessJobModel) :
  loaded j = false ->
  ProcessManager_load PM w = (Fulfilled tt, w1) ->
  Machine_load M (machine j) w1 = (Fulfilled tt, w2) ->
  ProcessManager_createProcess PM (processName j) w2 = (Fulfilled p, w3) ->
  ProcessManager_createJob PM p (jobName j) w3 = (Fulfilled pj, w4) ->
  load PM M H {| job := j; world := w; trace := tr |}
  = resolve_only
      (bind (hasCache M)
         (fun found : bool =>
            bind (if found
                  then bind (syncCache M) (fun _ => dispatch OnCacheExist (onCacheExist H))
                  else dispatch OnCacheEmpty (onCacheEmpty H))
                 (fun _ => assign (set_loaded true))))
      {| job := set_processJob (Some pj) (set_process (Some p) j);
         world := w4;
         trace := (((tr ++ [ProcessManagerLoad]) ++ [MachineLoad])
                   ++ [CreateProcess (processName j)]) ++ [CreateJob (jobName j)] |}.
Proof.
  intros Hl H1 H2 H3 H4. unfold load, resolve_only, this at 1. simpl. rewrite Hl.
  unfold bind at 1, call at 1. simpl. rewrite H1.
  unfold bind at 1, this at 1, call at 1. simpl. rewrite H2.
  unfold bind at 1, this at 1, call at 1. simpl. rewrite H3.
  unfold bind at 1, assign at 1. simpl.
  unfold bind at 1, this at 1, call at 1. simpl. rewrite H4.
  unfold bind at 1, assign at 1. simpl. reflexivity.
Qed.

(** X18. A [load()] on an unloaded instance does not depend on what the
    [process] and [processJob] fields hold when it starts (for instance what
    an earlier, failed [load()] left there): the outcome, the world and the
    calls are the same, and when it fulfils the instance is the same. *)
Theorem load_ignores_leftovers (j : t Process ProcessJobModel) (w : W) (tr : list Event)
    (p0 : option Process) (pj0 : option ProcessJobModel) :
  loaded j = false ->
  let s := {| job := j; world := w; trace := tr |} in
  let s0 := {| job := set_processJob pj0 (set_process p0 j); world := w; trace := tr |} in
  fst (load PM M H s0) = fst (load PM M H s)
  /\ world (snd (load PM M H s0)) = world (snd (load PM M H s))
  /\ trace (snd (load PM M H s0)) = trace (snd (load PM M H s))
  /\ (fst (load PM M H s) = Fulfilled tt ->
      job (snd (load PM M H s0)) = job (snd (load PM M H s))).
Proof.
  intros Hl s s0. subst s s0.
  set (j0 := set_processJob pj0 (set_process p0 j)).
  assert (loaded j0 = false) as Hl0 by exact Hl.
  destruct (ProcessManager_load PM w) as [o1 w1] eqn:H1.
  destruct o1 as [[]|e|];
    try (rewrite (load_stops_at_processManager j0 _ _ _ _ Hl0 H1 eq_refl),
           (load_stops_at_processManager j _ _ _ _ Hl H1 eq_refl);
         simpl; repeat split; discriminate).
  destruct (Machine_load M (machine j) w1) as [o2 w2] eqn:H2.
  destruct o2 as [[]|e|];
    try (rewrite (load_stops_at_machine j0 _ _ _ _ _ Hl0 H1 H2 eq_refl),
           (load_stops_at_machine j _ _ _ _ _ Hl H1 H2 eq_refl);
         simpl; repeat split; discriminate).
  destruct (ProcessManager_createProcess PM (processName j) w2) as [o3 w3] eqn:H3.
  destruct o3 as [p|e|];
    try (rewrite (load_stops_at_process j0 _ _ _ _ _ _ Hl0 H1 H2 H3 eq_refl),
           (load_stops_at_process j _ _ _ _ _ _ Hl H1 H2 H3 eq_refl);
         simpl; repeat split; discriminate).
  destruct (ProcessManager_createJob PM p (jobName j) w3) as [o4 w4] eqn:H4.
  destruct o4 as [pj|e|];
    try (rewrite (load_stops_at_job j0 _ _ _ _ _ _ _ _ Hl0 H1 H2 H3 H4 eq_refl),
           (load_stops_at_job j _ _ _ _ _ _ _ _ Hl H1 H2 H3 H4 eq_refl);
         simpl; repeat split; discriminate).
  rewrite (load_after_resolution j0 _ _ _ _ _ _ _ _ Hl0 H1 H2 H3 H4),
    (load_after_resolution j _ _ _ _ _ _ _ _ Hl H1 H2 H3 H4).
  change (set_processJob (Some pj) (set_process (Some p) j0))
    with (set_processJob (Some pj) (set_process (Some p) j)).
  auto.
Qed.

End JobCoverage.

(** * What a [load()] comes to

    The outcomes of [load()] on an instance not yet loaded, by the awaited
    step that decides them. *)

Section LoadOutcomes.
Import Promise Job.

Context {Process ProcessJobModel ProcessJobLogModel ProcessLogTypes W : Type}.
Context (PM : ProcessManager Process ProcessJobModel W).
Context (M : Machine Process ProcessJobModel ProcessJobLogModel ProcessLogTypes W).
Context (H : Hooks Process ProcessJobModel W).

(** *** [load] from the existence check on *)

Lemma load_stops_at_hasCache (j : t Process ProcessJobModel) (w w1 w2 w3 w4 w5 : W)
    (tr : list Event) (p : Process) (pj : ProcessJobModel) (o : Promise.t bool) :
  loaded j = false ->
  ProcessManager_load PM w = (Fulfilled tt, w1) ->
  Machine_load M (machine j) w1 = (Fulfilled tt, w2) ->
  ProcessManager_createProcess PM (processName j) w2 = (Fulfilled p, w3) ->
  ProcessManager_createJob PM p (jobName j) w3 = (Fulfilled pj, w4) ->
  Machine_hasCache M (machine j) (Some p) (Some pj) w4 = (o, w5) ->
  is_fulfilled o = false ->
  load PM M H {| job := j; world := w; trace := tr |}
  = (Pending,
     {| job := set_processJob (Some pj) (set_process (Some p) j); world := w5;
        trace := tr ++ [ProcessManagerLoad; MachineLoad; CreateProcess (processName j);
                        CreateJob (jobName j); MachineHasCache] |}).
Proof.
  intros Hl H1 H2 H3 H4 H5 Ho.
  rewrite (load_after_resolution PM M H j _ _ _ _ _ _ _ _ Hl H1 H2 H3 H4).
  unfold resolve_only, bind at 1, hasCache, this at 1, call at 1. simpl. rewrite H5.
  repeat rewrite <- app_assoc. simpl.
  destruct o; simpl in *; try discriminate; reflexivity.
Qed.

(** The existence check answers true: [load] goes on with the sync, and to
    the hook when the sync has fulfilled. *)
Lemma load_with_cache (j : t Process ProcessJobModel) (w w1 w2 w3 w4 w5 : W)
    (tr : list Event) (p : Process) (pj : ProcessJobModel) :
  loaded j = false ->
  ProcessManager_load PM w = (Fulfilled tt, w1) ->
  Machine_load M (machine j) w1 = (Fulfilled tt, w2) ->
  ProcessManager_createProcess PM (processName j) w2 = (Fulfilled p, w3) ->
  ProcessManager_createJob PM p (jobName j) w3 = (Fulfilled pj, w4) ->
  Machine_hasCache M (machine j) (Some p) (Some pj) w4 = (Fulfilled true, w5) ->
  load PM M H {| job := j; world := w; trace := tr |}
  = resolve_only
      (bind (syncCache M)
         (fun _ => bind (dispatch OnCacheExist (onCacheExist H))
                     (fun _ => assign (set_loaded true))))
      {| job := set_processJob (Some pj) (set_process (Some p) j); world := w5;
         trace := tr ++ [ProcessManagerLoad; MachineLoad; CreateProcess (processName j);
                         CreateJob (jobName j); MachineHasCache] |}.
Proof.
  intros Hl H1 H2 H3 H4 H5.
  rewrite (load_after_resolution PM M H j _ _ _ _ _ _ _ _ Hl H1 H2 H3 H4).
  unfold resolve_only, bind at 1, hasCache, this at 1, call at 1. simpl. rewrite H5.
  repeat rewrite <- app_assoc. simpl.
  unfold bind.
  match goal with |- context [syncCache M ?s0] => destruct (syncCache M s0) as [[[]|e|] s1] end;
    try reflexivity.
Qed.

(** The existence check answers false: [load] goes to [onCacheEmpty]. *)
Lemma load_without_cache (j : t Process ProcessJobModel) (w w1 w2 w3 w4 w5 : W)
    (tr : list Event) (p : Process) (pj : ProcessJobModel) :
  loaded j = false ->
  ProcessManager_load PM w = (Fulfilled tt, w1) ->
  Machine_load M (machine j) w1 = (Fulfilled tt, w2) ->
  ProcessManager_createProcess PM (processName j) w2 = (Fulfilled p, w3) ->
  ProcessManager_createJob PM p (jobName j) w3 = (Fulfilled pj, w4) ->
  Machine_hasCache M (machine j) (Some p) (Some pj) w4 = (Fulfilled false, w5) ->
  load PM M H {| job := j; world := w; trace := tr |}
  = resolve_only
      (bind (dispatch OnCacheEmpty (onCacheEmpty H)) (fun _ => assign (set_loaded true)))
      {| job := set_processJob (Some pj) (set_process (Some p) j); world := w5;
         trace := tr ++ [ProcessManagerLoad; MachineLoad; CreateProcess (processName j);
                         CreateJob (jobName j); MachineHasCache] |}.
Proof.
  intros Hl H1 H2 H3 H4 H5.
  rewrite (load_after_resolution PM M H j _ _ _ _ _ _ _ _ Hl H1 H2 H3 H4).
  unfold resolve_only, bind at 1, hasCache, this at 1, call at 1. simpl. rewrite H5.
  repeat rewrite <- app_assoc. simpl. reflexivity.
Qed.


(** A [load()] on an instance not yet loaded is not the no-op of a loaded
    one: it begins with the load of the process manager. *)
Lemma load_unloaded_starts_over (s : Job.State Process ProcessJobModel W) :
  loaded (job s) = false ->
  exists rest, trace (snd (load PM M H s)) = trace s ++ ProcessManagerLoad :: rest.
Proof.
  destruct s as [j w tr]. simpl. intros Hl.
  destruct (ProcessManager_load PM w) as [o1 w1] eqn:H1.
  destruct o1 as [[]|e|];
    try (rewrite (load_stops_at_processManager PM M H j _ _ _ _ Hl H1 eq_refl);
         exists []; reflexivity).
  destruct (Machine_load M (machine j) w1) as [o2 w2] eqn:H2.
  destruct o2 as [[]|e|];
    try (rewrite (load_stops_at_machine PM M H j _ _ _ _ _ Hl H1 H2 eq_refl);
         eexists; simpl; rewrite <- ?app_assoc; reflexivity).
  destruct (ProcessManager_createProcess PM (processName j) w2) as [o3 w3] eqn:H3.
  destruct o3 as [p|e|];
    try (rewrite (load_stops_at_process PM M H j _ _ _ _ _ _ Hl H1 H2 H3 eq_refl);
         eexists; simpl; rewrite <- ?app_assoc; reflexivity).
  destruct (ProcessManager_createJob PM p (jobName j) w3) as [o4 w4] eqn:H4.
  destruct o4 as [pj|e|];
    try (rewrite (load_stops_at_job PM M H j _ _ _ _ _ _ _ _ Hl H1 H2 H3 H4 eq_refl);
         eexists; simpl; rewrite <- ?app_assoc; reflexivity).
  destruct (Machine_hasCache M (machine j) (Some p) (Some pj) w4) as [o5 w5] eqn:H5.
  destruct o5 as [found|e|];
    try (rewrite (load_stops_at_hasCache j _ _ _ _ _ _ _ _ _ _ Hl H1 H2 H3 H4 H5 eq_refl);
         eexists; reflexivity).
  destruct found.
  - rewrite (load_with_cache j _ _ _ _ _ _ _ _ _ Hl H1 H2 H3 H4 H5).
    unfold resolve_only, bind.
    match goal with |- context [syncCache M ?s0] =>
      destruct (syncCache_frame M s0) as (ct & cr & w6 & Hs);
      destruct (syncCache M s0) as [[[]|e|] s1] end;
      simpl in Hs; subst s1; simpl;
      try (eexists; rewrite <- ?app_assoc; reflexivity).
    unfold dispatch, assign. simpl.
    match goal with |- context [onCacheExist H ?j0 ?w0] =>
      destruct (onCacheExist H j0 w0) as [[[]|e|] [j' w7]] end;
      simpl; eexists; rewrite <- ?app_assoc; reflexivity.
  - rewrite (load_without_cache j _ _ _ _ _ _ _ _ _ Hl H1 H2 H3 H4 H5).
    unfold resolve_only, bind, dispatch, assign. simpl.
    match goal with |- context [onCacheEmpty H ?j0 ?w0] =>
      destruct (onCacheEmpty H j0 w0) as [[[]|e|] [j' w6]] end;
      simpl; eexists; rewrite <- ?app_assoc; reflexivity.
Qed.

Lemma syncCache_stops (j : t Process ProcessJobModel) (w w' : W) (tr : list Event)
    (pre post : list ProcessCache.t) (r : ProcessCache.t) :
  Machine_getFullCache M (machine j) (process j) (processJob j) w
  = (Fulfilled (pre ++ r :: post), w') ->
  ordinary_keys pre ->
  JsObject.inherited (ProcessCache.key r) = true ->
  syncCache M {| job := j; world := w; trace := tr |}
  = (Pending, {| job := indexed pre j; world := w'; trace := tr ++ [MachineGetFullCache] |}).
Proof.
  intros Hfull Hpre Hr.
  unfold syncCache, resolve_only, bind at 1 2 3, assign, getFullCache, this, call. simpl.
  rewrite Hfull.
  rewrite (sync_records_stop pre post r j w' (tr ++ [MachineGetFullCache]) Hpre Hr).
  reflexivity.
Qed.

(** C1. [load()] on an instance not yet loaded, over a store that holds, for
    the resolved process and job, a record whose key names a property of
    [Object.prototype] (such as "constructor"). The steps up to the existence
    check fulfil, the check answers true and the fetch of the sync returns
    the records; the sync throws at the first such record, so [load()] is
    never settled and invokes neither [onCacheExist] nor [onCacheEmpty]; the
    index holds the records fetched before that one and the [loaded] flag
    stays false. *)
Theorem load_prototype_key_runs_no_hook (j : t Process ProcessJobModel)
    (w w1 w2 w3 w4 w5 w6 : W) (tr : list Event) (p : Process) (pj : ProcessJobModel)
    (pre post : list ProcessCache.t) (r : ProcessCache.t) :
  loaded j = false ->
  ProcessManager_load PM w = (Fulfilled tt, w1) ->
  Machine_load M (machine j) w1 = (Fulfilled tt, w2) ->
  ProcessManager_createProcess PM (processName j) w2 = (Fulfilled p, w3) ->
  ProcessManager_createJob PM p (jobName j) w3 = (Fulfilled pj, w4) ->
  Machine_hasCache M (machine j) (Some p) (Some pj) w4 = (Fulfilled true, w5) ->
  Machine_getFullCache M (machine j) (Some p) (Some pj) w5
  = (Fulfilled (pre ++ r :: post), w6) ->
  ordinary_keys pre ->
  JsObject.inherited (ProcessCache.key r) = true ->
  let s := {| job := j; world := w; trace := tr |} in
  let calls := [ProcessManagerLoad; MachineLoad; CreateProcess (processName j);
                CreateJob (jobName j); MachineHasCache; MachineGetFullCache] in
  load PM M H s
  = (Pending,
     {| job := indexed pre (set_processJob (Some pj) (set_process (Some p) j));
        world := w6; trace := tr ++ calls |})
  /\ count is_hook calls = 0%nat
  /\ loaded (job (snd (load PM M H s))) = false.
Proof.
  intros Hl H1 H2 H3 H4 H5 Hfull Hpre Hr s calls.
  assert (load PM M H s
          = (Pending,
             {| job := indexed pre (set_processJob (Some pj) (set_process (Some p) j));
                world := w6; trace := tr ++ calls |})) as Hload.
  { subst s. rewrite (load_with_cache j _ _ _ _ _ _ _ _ _ Hl H1 H2 H3 H4 H5).
    unfold resolve_only, bind at 1.
    rewrite (syncCache_stops (set_processJob (Some pj) (set_process (Some p) j))
               w5 w6 _ pre post r Hfull Hpre Hr).
    subst calls. repeat rewrite <- app_assoc. reflexivity. }
  split; [exact Hload|]. split; [reflexivity|].
  rewrite Hload. exact Hl.
Qed.

(** X19. On an instance not yet loaded, when the loads of the process
    manager and of the machine, the two identity resolutions and the
    existence check fulfil, [load()] runs one branch. On true,
    when the fetch of the sync fulfils with records none of whose keys names
    a property of [Object.prototype], [onCacheExist] is invoked, after the
    fetch, on the instance whose index holds under every key the fetched
    records with that key, in fetch order, and under every id the last
    fetched record with that id; [onCacheEmpty] is not invoked. On false,
    [onCacheEmpty] is invoked on the instance with both maps as [load()]
    found them, with no fetch and no [onCacheExist]. [load()] fulfils and
    raises the flag exactly when the hook fulfils; otherwise it is never
    settled and the instance is as the hook left it. *)
Theorem load_runs_one_hook (j : t Process ProcessJobModel) (w : W) (tr : list Event)
    (w1 w2 w3 w4 w5 : W) (p : Process) (pj : ProcessJobModel) (found : bool) :
  loaded j = false ->
  ProcessManager_load PM w = (Fulfilled tt, w1) ->
  Machine_load M (machine j) w1 = (Fulfilled tt, w2) ->
  ProcessManager_createProcess PM (processName j) w2 = (Fulfilled p, w3) ->
  ProcessManager_createJob PM p (jobName j) w3 = (Fulfilled pj, w4) ->
  Machine_hasCache M (machine j) (Some p) (Some pj) w4 = (Fulfilled found, w5) ->
  let resolved := set_processJob (Some pj) (set_process (Some p) j) in
  let calls := tr ++ [ProcessManagerLoad; MachineLoad; CreateProcess (processName j);
                      CreateJob (jobName j); MachineHasCache] in
  (found = true ->
   forall rs w6 o j' w7,
     Machine_getFullCache M (machine j) (Some p) (Some pj) w5 = (Fulfilled rs, w6) ->
     ordinary_keys rs ->
     onCacheExist H (indexed rs resolved) w6 = (o, (j', w7)) ->
     (forall k,
        cacheTree (indexed rs resolved) !! k
        = match bucket_of rs k with [] => None | b => Some b end)
     /\ (forall i, cacheResults (indexed rs resolved) !! i = last (with_id rs i))
     /\ load PM M H {| job := j; world := w; trace := tr |}
        = (if is_fulfilled o then Fulfilled tt else Pending,
           {| job := if is_fulfilled o then set_loaded true j' else j';
              world := w7;
              trace := calls ++ [MachineGetFullCache; OnCacheExist] |}))
  /\ (found = false ->
      forall o j' w6,
        onCacheEmpty H resolved w5 = (o, (j', w6)) ->
        cacheTree resolved = cacheTree j
        /\ cacheResults resolved = cacheResults j
        /\ load PM M H {| job := j; world := w; trace := tr |}
           = (if is_fulfilled o then Fulfilled tt else Pending,
              {| job := if is_fulfilled o then set_loaded true j' else j';
                 world := w6;
                 trace := calls ++ [OnCacheEmpty] |})).
Proof.
  intros Hl H1 H2 H3 H4 H5 resolved calls. split.
  - intros -> rs w6 o j' w7 Hfull Hrs Hhook.
    split; [intros k; apply tree_of_lookup|].
    split; [intros i; apply results_of_lookup|].
    rewrite (load_with_cache j _ _ _ _ _ _ _ _ _ Hl H1 H2 H3 H4 H5).
    unfold resolve_only, bind at 1. fold resolved. fold calls.
    rewrite (syncCache_ordinary M resolved w5 calls rs w6 Hfull Hrs).
    unfold bind, dispatch, assign. simpl.
    rewrite Hhook. repeat rewrite <- app_assoc. simpl.
    destruct o as [[]|e|]; reflexivity.
  - intros -> o j' w6 Hhook. split; [reflexivity|]. split; [reflexivity|].
    rewrite (load_without_cache j _ _ _ _ _ _ _ _ _ Hl H1 H2 H3 H4 H5).
    unfold resolve_only, bind, dispatch, assign. simpl. fold resolved. rewrite Hhook.
    destruct o as [[]|e|]; reflexivity.
Qed.


(** C4 (as amended). When identity resolution or another collaborator call
    awaited by [load()] does not fulfil (the load of the process manager or
    of the machine, the resolution of the process or of the job, the
    existence check, the fetch of the sync), the promise of [load()] is never
    settled: on no input is it rejected, so the error does not reach the
    caller. The [loaded] flag stays false, so [load()] can be called again:
    a later call is not the no-op of a loaded instance, it starts over with
    the load of the process manager. What was assigned before the failing
    call stays: the instance is unchanged up to the resolution of the
    process; it keeps the resolved process and the job it had (none on a new
    instance) when the job cannot be resolved; it holds both identities when
    the existence check or the fetch fails, the latter with an emptied
    index. *)
Theorem load_failure_is_silent (j : t Process ProcessJobModel) (w : W) (tr : list Event) :
  loaded j = false ->
  let s := {| job := j; world := w; trace := tr |} in
  (forall e, fst (load PM M H s) <> Rejected e)
  /\ (forall o w1,
        ProcessManager_load PM w = (o, w1) ->
        is_fulfilled o = false ->
        load PM M H s
        = (Pending, {| job := j; world := w1; trace := tr ++ [ProcessManagerLoad] |})
        /\ loaded (job (snd (load PM M H s))) = false)
  /\ (forall w1 o w2,
        ProcessManager_load PM w = (Fulfilled tt, w1) ->
        Machine_load M (machine j) w1 = (o, w2) ->
        is_fulfilled o = false ->
        load PM M H s
        = (Pending,
           {| job := j; world := w2; trace := tr ++ [ProcessManagerLoad; MachineLoad] |})
        /\ loaded (job (snd (load PM M H s))) = false)
  /\ (forall w1 w2 o w3,
        ProcessManager_load PM w = (Fulfilled tt, w1) ->
        Machine_load M (machine j) w1 = (Fulfilled tt, w2) ->
        ProcessManager_createProcess PM (processName j) w2 = (o, w3) ->
        is_fulfilled o = false ->
        load PM M H s
        = (Pending,
           {| job := j; world := w3;
              trace := tr ++ [ProcessManagerLoad; MachineLoad;
                              CreateProcess (processName j)] |})
        /\ loaded (job (snd (load PM M H s))) = false)
  /\ (forall w1 w2 p w3 o w4,
        ProcessManager_load PM w = (Fulfilled tt, w1) ->
        Machine_load M (machine j) w1 = (Fulfilled tt, w2) ->
        ProcessManager_createProcess PM (processName j) w2 = (Fulfilled p, w3) ->
        ProcessManager_createJob PM p (jobName j) w3 = (o, w4) ->
        is_fulfilled o = false ->
        load PM M H s
        = (Pending,
           {| job := set_process (Some p) j; world := w4;
              trace := tr ++ [ProcessManagerLoad; MachineLoad;
                              CreateProcess (processName j); CreateJob (jobName j)] |})
        /\ loaded (job (snd (load PM M H s))) = false)
  /\ (forall w1 w2 p w3 pj w4 o w5,
        ProcessManager_load PM w = (Fulfilled tt, w1) ->
        Machine_load M (machine j) w1 = (Fulfilled tt, w2) ->
        ProcessManager_createProcess PM (processName j) w2 = (Fulfilled p, w3) ->
        ProcessManager_createJob PM p (jobName j) w3 = (Fulfilled pj, w4) ->
        Machine_hasCache M (machine j) (Some p) (Some pj) w4 = (o, w5) ->
        is_fulfilled o = false ->
        load PM M H s
        = (Pending,
           {| job := set_processJob (Some pj) (set_process (Some p) j); world := w5;
              trace := tr ++ [ProcessManagerLoad; MachineLoad;
                              CreateProcess (processName j); CreateJob (jobName j);
                              MachineHasCache] |})
        /\ loaded (job (snd (load PM M H s))) = false)
  /\ (forall w1 w2 p w3 pj w4 w5 o w6,
        ProcessManager_load PM w = (Fulfilled tt, w1) ->
        Machine_load M (machine j) w1 = (Fulfilled tt, w2) ->
        ProcessManager_createProcess PM (processName j) w2 = (Fulfilled p, w3) ->
        ProcessManager_createJob PM p (jobName j) w3 = (Fulfilled pj, w4) ->
        Machine_hasCache M (machine j) (Some p) (Some pj) w4 = (Fulfilled true, w5) ->
        Machine_getFullCache M (machine j) (Some p) (Some pj) w5 = (o, w6) ->
        is_fulfilled o = false ->
        load PM M H s
        = (Pending,
           {| job := set_cacheTree ∅
                       (set_cacheResults ∅
                          (set_processJob (Some pj) (set_process (Some p) j)));
              world := w6;
              trace := tr ++ [ProcessManagerLoad; MachineLoad;
                              CreateProcess (processName j); CreateJob (jobName j);
                              MachineHasCache; MachineGetFullCache] |})
        /\ loaded (job (snd (load PM M H s))) = false)
  /\ (forall s' : Job.State Process ProcessJobModel W,
        loaded (job s') = false ->
        exists rest, trace (snd (load PM M H s')) = trace s' ++ ProcessManagerLoad :: rest).
Proof.
  intros Hl s.
  assert (forall s', load PM M H s = (Pending, s') -> loaded (job s') = false ->
                     load PM M H s = (Pending, s')
                     /\ loaded (job (snd (load PM M H s))) = false) as Hstop.
  { intros s' Hload Hs'. split; [exact Hload|]. rewrite Hload. exact Hs'. }
  subst s. split; [|split; [|split; [|split; [|split; [|split; [|split]]]]]].
  - intros e. apply resolve_only_not_rejected.
  - intros o w1 H1 Ho. apply Hstop; [|exact Hl].
    apply (load_stops_at_processManager PM M H j _ _ _ _ Hl H1 Ho).
  - intros w1 o w2 H1 H2 Ho. apply Hstop; [|exact Hl].
    rewrite (load_stops_at_machine PM M H j _ _ _ _ _ Hl H1 H2 Ho).
    repeat rewrite <- app_assoc. reflexivity.
  - intros w1 w2 o w3 H1 H2 H3 Ho. apply Hstop; [|exact Hl].
    rewrite (load_stops_at_process PM M H j _ _ _ _ _ _ Hl H1 H2 H3 Ho).
    repeat rewrite <- app_assoc. reflexivity.
  - intros w1 w2 p w3 o w4 H1 H2 H3 H4 Ho. apply Hstop; [|exact Hl].
    rewrite (load_stops_at_job PM M H j _ _ _ _ _ _ _ _ Hl H1 H2 H3 H4 Ho).
    repeat rewrite <- app_assoc. reflexivity.
  - intros w1 w2 p w3 pj w4 o w5 H1 H2 H3 H4 H5 Ho. apply Hstop; [|exact Hl].
    apply (load_stops_at_hasCache j _ _ _ _ _ _ _ _ _ _ Hl H1 H2 H3 H4 H5 Ho).
  - intros w1 w2 p w3 pj w4 w5 o w6 H1 H2 H3 H4 H5 H6 Ho. apply Hstop; [|exact Hl].
    rewrite (load_with_cache j _ _ _ _ _ _ _ _ _ Hl H1 H2 H3 H4 H5).
    unfold resolve_only, bind at 1.
    rewrite (syncCache_fetch_fails M
               (set_processJob (Some pj) (set_process (Some p) j)) w5 _ o w6 H6 Ho).
    repeat rewrite <- app_assoc. reflexivity.
  - intros s' Hs'. apply load_unloaded_starts_over. exact Hs'.
Qed.

End LoadOutcomes.

(** * Further properties of the table definition *)

Section TableCoverage.
Import ProcessCache.

(** The uniqueness check of this table: only the primary key can refuse. *)
Lemma violation_is_of_id (table : list t) (row : Row) :
  existsb (fun ix => violates ix table row)
    (primary_index ProcessCacheAttributeDefinition :: indexes init_options)
  = existsb (fun x => same_value (Some (VInt (id x))) (lookup_col "id" row)) table.
Proof.
  simpl. unfold violates. simpl. rewrite !orb_false_r. unfold project. simpl.
  induction table as [|x table IH]; [reflexivity|]. simpl. rewrite IH, andb_true_r.
  reflexivity.
Qed.

Lemma create_unfold (table : list t) (now next_id : Z) (supplied : Row) :
  create ProcessCacheAttributeDefinition init_options table now next_id supplied
  = match fill_columns ProcessCacheAttributeDefinition supplied next_id with
    | Some row =>
        if existsb (fun x => same_value (Some (VInt (id x))) (lookup_col "id" row)) table
        then None else of_row row
    | None => None
    end.
Proof.
  unfold create, insert, build.
  destruct (fill_columns ProcessCacheAttributeDefinition supplied next_id) as [row|];
    [|reflexivity].
  change (stamp init_options now <$> Some row) with (Some row). cbv beta iota.
  rewrite violation_is_of_id.
  destruct (existsb _ table); reflexivity.
Qed.

Lemma taken_spec (table : list t) (i : Z) :
  existsb (fun x => Z.eqb (id x) i) table = true <-> i ∈ map id table.
Proof.
  rewrite existsb_exists, list_elem_of_In, in_map_iff. split.
  - intros (x & Hin & Heq). exists x. apply Z.eqb_eq in Heq. auto.
  - intros (x & Heq & Hin). exists x. split; [exact Hin|]. apply Z.eqb_eq. exact Heq.
Qed.

(** A conforming insert, in closed form. *)
Lemma create_conforming (table : list t) (now next_id : Z) (supplied : Row) (v : string) :
  conforms ProcessCacheAttributeDefinition supplied = true ->
  lookup_col "value" supplied = Some (VStr v) ->
  create ProcessCacheAttributeDefinition init_options table now next_id supplied
  = if existsb (fun x => Z.eqb (id x) (id_or supplied next_id)) table
    then None
    else Some (Build (id_or supplied next_id) (int_or supplied "process" 0)
                 (int_or supplied "job" 0) (str_or supplied "machine" "")
                 (str_or supplied "key" "") v
                 (int_or supplied "createdAt" 0) (int_or supplied "updatedAt" 0)).
Proof.
  intros Hconf Hv. rewrite create_unfold.
  unfold conforms, accepts in Hconf. simpl in Hconf. rewrite Hv in Hconf. simpl in Hconf.
  rewrite andb_true_r in Hconf.
  repeat (apply andb_prop in Hconf as [? Hconf]).
  simpl fill_columns. unfold fill_column, absent_column, id_or, int_or, str_or. simpl.
  rewrite Hv.
  destruct (lookup_col "id" supplied) as [[|i|i]|]; simpl in *; try discriminate;
  try (destruct (Z.eqb i 0) eqn:?); try (destruct (String.eqb i "") eqn:?);
  try discriminate; simpl;
  destruct (lookup_col "process" supplied) as [[]|]; try discriminate;
  destruct (lookup_col "job" supplied) as [[]|]; try discriminate;
  destruct (lookup_col "machine" supplied) as [[]|]; try discriminate;
  destruct (lookup_col "key" supplied) as [[]|]; try discriminate;
  destruct (lookup_col "createdAt" supplied) as [[]|]; try discriminate;
  destruct (lookup_col "updatedAt" supplied) as [[]|]; try discriminate;
  simpl; reflexivity.
Qed.

Lemma of_row_fields (row : Row) (r : t) :
  of_row row = Some r ->
  lookup_col "id" row = Some (VInt (id r))
  /\ lookup_col "process" row = Some (VInt (process r))
  /\ lookup_col "job" row = Some (VInt (job r))
  /\ lookup_col "machine" row = Some (VStr (machine r))
  /\ lookup_col "key" row = Some (VStr (key r))
  /\ lookup_col "value" row = Some (VStr (value r))
  /\ lookup_col "createdAt" row = Some (VInt (createdAt r))
  /\ lookup_col "updatedAt" row = Some (VInt (updatedAt r)).
Proof.
  unfold of_row, int_col, str_col.
  destruct (lookup_col "id" row) as [[]|]; try discriminate.
  destruct (lookup_col "process" row) as [[]|]; try discriminate.
  destruct (lookup_col "job" row) as [[]|]; try discriminate.
  destruct (lookup_col "machine" row) as [[]|]; try discriminate.
  destruct (lookup_col "key" row) as [[]|]; try discriminate.
  destruct (lookup_col "value" row) as [[]|]; try discriminate.
  destruct (lookup_col "createdAt" row) as [[]|]; try discriminate.
  destruct (lookup_col "updatedAt" row) as [[]|]; try discriminate.
  intros [= <-]. repeat split.
Qed.

Lemma create_needs_conforming (table : list t) (now next_id : Z) (supplied : Row) (r : t) :
  create ProcessCacheAttributeDefinition init_options table now next_id supplied = Some r ->
  conforms ProcessCacheAttributeDefinition supplied = true
  /\ exists v, lookup_col "value" supplied = Some (VStr v).
Proof.
  intros Hr. destruct (create_row _ _ _ _ _ Hr) as (row & Hfill & Hrow).
  apply of_row_fields in Hrow as (Hi & Hp & Hj & Hm & Hk & Hv & Hc & Hu).
  rewrite (fill_columns_lookup _ _ _ _ _ Hfill) in Hi.
  rewrite (fill_columns_lookup _ _ _ _ _ Hfill) in Hp.
  rewrite (fill_columns_lookup _ _ _ _ _ Hfill) in Hj.
  rewrite (fill_columns_lookup _ _ _ _ _ Hfill) in Hm.
  rewrite (fill_columns_lookup _ _ _ _ _ Hfill) in Hk.
  rewrite (fill_columns_lookup _ _ _ _ _ Hfill) in Hv.
  rewrite (fill_columns_lookup _ _ _ _ _ Hfill) in Hc.
  rewrite (fill_columns_lookup _ _ _ _ _ Hfill) in Hu.
  clear Hfill Hr.
  simpl in Hi, Hp, Hj, Hm, Hk, Hv, Hc, Hu.
  unfold fill_column, absent_column in Hi, Hp, Hj, Hm, Hk, Hv, Hc, Hu.
  simpl in Hi, Hp, Hj, Hm, Hk, Hv, Hc, Hu.
  split.
  - unfold conforms, accepts. simpl.
    repeat (apply andb_true_intro; split); try reflexivity.
    + destruct (lookup_col "id" supplied) as [[|i|i]|]; simpl in Hi |- *; try reflexivity.
      destruct (String.eqb i ""); [reflexivity|discriminate Hi].
    + destruct (lookup_col "process" supplied) as [[]|]; simpl in Hp |- *;
        try discriminate Hp; reflexivity.
    + destruct (lookup_col "job" supplied) as [[]|]; simpl in Hj |- *;
        try discriminate Hj; reflexivity.
    + destruct (lookup_col "machine" supplied) as [[]|]; simpl in Hm |- *;
        try discriminate Hm; reflexivity.
    + destruct (lookup_col "key" supplied) as [[]|]; simpl in Hk |- *;
        try discriminate Hk; reflexivity.
    + destruct (lookup_col "value" supplied) as [[]|]; simpl in Hv |- *;
        try discriminate Hv; reflexivity.
    + destruct (lookup_col "createdAt" supplied) as [[]|]; simpl in Hc |- *;
        try discriminate Hc; reflexivity.
    + destruct (lookup_col "updatedAt" supplied) as [[]|]; simpl in Hu |- *;
        try discriminate Hu; reflexivity.
  - destruct (lookup_col "value" supplied) as [[]|]; simpl in Hv; try discriminate Hv.
    eexists. reflexivity.
Qed.

(** X15. The record an insert returns holds, column by column, the supplied
    value, and where none was supplied [0] for [process], [job], [createdAt]
    and [updatedAt] and the empty string for [machine] and [key]; its [id]
    is the supplied one unless that is falsy (null, 0, the empty string),
    and else, as when none was supplied, the next id of the sequence. *)
Theorem create_writes_supplied_or_default (table : list t) (now next_id : Z)
    (supplied : Row) (r : t) :
  create ProcessCacheAttributeDefinition init_options table now next_id supplied = Some r ->
  r = Build (id_or supplied next_id) (int_or supplied "process" 0)
        (int_or supplied "job" 0) (str_or supplied "machine" "")
        (str_or supplied "key" "") (str_or supplied "value" "")
        (int_or supplied "createdAt" 0) (int_or supplied "updatedAt" 0).
Proof.
  intros Hr.
  destruct (create_needs_conforming _ _ _ _ _ Hr) as (Hconf & v & Hv).
  rewrite (create_conforming _ _ _ _ v Hconf Hv) in Hr.
  destruct (existsb _ table); [discriminate|].
  injection Hr as <-.
  assert (str_or supplied "value" "" = v) as -> by (unfold str_or; rewrite Hv; reflexivity).
  reflexivity.
Qed.

(** X16. An insert never reuses an id: the id of the returned record is not
    among the stored ones, so a table with distinct ids still has distinct
    ids once the record is added. *)
Theorem create_keeps_ids_unique (table : list t) (now next_id : Z) (supplied : Row)
    (r : t) :
  NoDup (map id table) ->
  create ProcessCacheAttributeDefinition init_options table now next_id supplied = Some r ->
  (id r ∉ map id table) /\ NoDup (map id (table ++ [r])).
Proof.
  intros Hnd Hr.
  assert (id r ∉ map id table) as Hfresh.
  { destruct (create_needs_conforming _ _ _ _ _ Hr) as (Hconf & v & Hv).
    rewrite (create_conforming _ _ _ _ v Hconf Hv) in Hr.
    destruct (existsb (fun x => Z.eqb (id x) (id_or supplied next_id)) table) eqn:Ht;
      [discriminate|].
    injection Hr as <-. simpl. intros Hin. apply taken_spec in Hin. congruence. }
  split; [exact Hfresh|].
  rewrite map_app. simpl. apply NoDup_app. split; [exact Hnd|]. split.
  - intros i Hi Hi'. apply list_elem_of_singleton in Hi'. subst i. contradiction.
  - apply NoDup_singleton.
Qed.

(** X17. The outcome of an insert depends on the stored rows through their
    ids only, and not on the time: all indexes on [process], [job], [key] and
    [machine] are declared non-unique, so stored rows with the same process,
    job, machine, key or value never change it. *)
Theorem create_looks_at_ids_only (table1 table2 : list t) (now1 now2 next_id : Z)
    (supplied : Row) :
  map id table1 = map id table2 ->
  create ProcessCacheAttributeDefinition init_options table1 now1 next_id supplied
  = create ProcessCacheAttributeDefinition init_options table2 now2 next_id supplied.
Proof.
  intros Hids. rewrite !create_unfold.
  destruct (fill_columns ProcessCacheAttributeDefinition supplied next_id) as [row|];
    [|reflexivity].
  assert (forall table,
            existsb (fun x => same_value (Some (VInt (id x))) (lookup_col "id" row)) table
            = existsb (fun i => same_value (Some (VInt i)) (lookup_col "id" row))
                (map id table)) as Hmap.
  { induction table as [|x table IH]; [reflexivity|].
    cbn [existsb map]. rewrite IH. reflexivity. }
  rewrite (Hmap table1), (Hmap table2), Hids. reflexivity.
Qed.

End TableCoverage.

(** * The further properties on concrete inputs *)

Section CoverageRuns.
Import Promise.

Lemma syncCache_index_witness :
  Job.cacheTree (Job.job (snd (Scenario.syncCache Scenario.resumed))) !! "artifact-hash"
  = Some [Scenario.artifact_record].
Proof.
  assert (Scenario.syncCache Scenario.resumed
          = (Fulfilled tt, snd (Scenario.syncCache Scenario.resumed))) as Hrun
    by (vm_compute; reflexivity).
  destruct (syncCache_index Store.machine Scenario.resolved
              (Scenario.stored_with Scenario.artifact_record) [] _ Hrun)
    as (rs & Hfetch & Htree & _).
  vm_compute in Hfetch. injection Hfetch as <-.
  exact (Htree "artifact-hash").
Defined.

Lemma syncCache_exact_witness :
  Job.cacheResults
    (Job.job (snd (Scenario.syncCache
                     (Store.start Scenario.resolved
                        (Scenario.stored_rows
                           [Scenario.artifact_record; Scenario.second_record] 3)))))
    !! 2
  = Some Scenario.second_record.
Proof.
  assert (NoDup (map ProcessCache.id [Scenario.artifact_record; Scenario.second_record]))
    as Hids
    by (simpl; apply NoDup_cons; split;
        [rewrite list_elem_of_singleton; discriminate|apply NoDup_singleton]).
  assert (Scenario.second_record ∈ [Scenario.artifact_record; Scenario.second_record])
    as Hin by (right; left).
  exact (proj1 (proj1
           (syncCache_exact Store.machine Scenario.resolved
              (Scenario.stored_rows [Scenario.artifact_record; Scenario.second_record] 3)
              (Scenario.stored_rows [Scenario.artifact_record; Scenario.second_record] 3)
              [] [Scenario.artifact_record; Scenario.second_record]
              (snd (Scenario.syncCache
                      (Store.start Scenario.resolved
                         (Scenario.stored_rows
                            [Scenario.artifact_record; Scenario.second_record] 3))))
              eq_refl ltac:(vm_compute; reflexivity) Hids Scenario.second_record)) Hin).
Defined.

Lemma syncCache_failed_fetch_witness :
  Scenario.syncCache
    (Store.start (Job.indexed [Scenario.artifact_record] Scenario.resolved)
       (Store.set_outage (Some 0%nat) (Scenario.stored_with Scenario.artifact_record)))
  = (Pending,
     {| Job.job := Job.set_cacheTree ∅ (Job.set_cacheResults ∅ Scenario.resolved);
        Job.world := Store.set_outage (Some 0%nat)
                       (Scenario.stored_with Scenario.artifact_record);
        Job.trace := [Job.MachineGetFullCache] |}).
Proof.
  exact (syncCache_failed_fetch Store.machine Scenario.resolved
           (Store.set_outage (Some 0%nat) (Scenario.stored_with Scenario.artifact_record))
           (Store.set_outage (Some 0%nat) (Scenario.stored_with Scenario.artifact_record))
           [] (Job.tree_of [Scenario.artifact_record])
           (Job.results_of [Scenario.artifact_record])
           (Rejected (Failure "database unreachable")) eq_refl eq_refl).
Defined.

Lemma syncCache_prototype_key_witness :
  Scenario.syncCache
    (Store.start Scenario.resolved
       (Scenario.stored_rows
          [Scenario.artifact_record; Scenario.toString_record; Scenario.third_record] 4))
  = (Pending,
     {| Job.job := Job.indexed [Scenario.artifact_record] Scenario.resolved;
        Job.world := Scenario.stored_rows
                       [Scenario.artifact_record; Scenario.toString_record;
                        Scenario.third_record] 4;
        Job.trace := [Job.MachineGetFullCache] |}).
Proof.
  assert (Job.ordinary_keys [Scenario.artifact_record]) as Hpre by (repeat constructor).
  exact (proj2
           (syncCache_prototype_key Store.machine Scenario.resolved
              (Scenario.stored_rows
                 [Scenario.artifact_record; Scenario.toString_record;
                  Scenario.third_record] 4)
              (Scenario.stored_rows
                 [Scenario.artifact_record; Scenario.toString_record;
                  Scenario.third_record] 4)
              [] [Scenario.artifact_record; Scenario.toString_record; Scenario.third_record]
              eq_refl)
           [Scenario.artifact_record] Scenario.toString_record [Scenario.third_record]
           eq_refl Hpre eq_refl).
Defined.

Lemma createCache_appends_witness :
  fst (Scenario.createCache "artifact-hash" "def456" Scenario.resumed)
  = Fulfilled Scenario.second_record.
Proof.
  destruct (createCache_appends Store.machine "artifact-hash" "def456" Scenario.resolved
              (Scenario.stored_with Scenario.artifact_record)
              (Scenario.stored_rows [Scenario.artifact_record; Scenario.second_record] 3)
              [] Scenario.second_record
              ltac:(vm_compute; reflexivity) eq_refl)
    as (j' & Hrun & _).
  unfold Scenario.createCache, Scenario.resumed, Store.start. rewrite Hrun. reflexivity.
Defined.

Lemma createCache_twice_in_order_witness :
  exists s1 j2,
    Scenario.createCache "artifact-hash" "def456" Scenario.resumed
    = (Fulfilled Scenario.second_record, s1)
    /\ Scenario.createCache "artifact-hash" "ghi789" s1
       = (Fulfilled Scenario.third_record,
          {| Job.job := j2;
             Job.world := Scenario.stored_rows
                            [Scenario.artifact_record; Scenario.second_record;
                             Scenario.third_record] 4;
             Job.trace := [Job.MachineCreateCache "artifact-hash" "def456";
                           Job.MachineCreateCache "artifact-hash" "ghi789"] |})
    /\ Job.cacheTree j2 !! "artifact-hash"
       = Some [Scenario.second_record; Scenario.third_record]
    /\ (forall k, k <> "artifact-hash" -> Job.cacheTree j2 !! k = None).
Proof.
  exact (createCache_twice_in_order Store.machine "artifact-hash" "def456" "ghi789"
           Scenario.resolved
           (Scenario.stored_with Scenario.artifact_record)
           (Scenario.stored_rows [Scenario.artifact_record; Scenario.second_record] 3)
           (Scenario.stored_rows
              [Scenario.artifact_record; Scenario.second_record; Scenario.third_record] 4)
           [] Scenario.second_record Scenario.third_record
           ltac:(vm_compute; reflexivity) ltac:(vm_compute; reflexivity)
           eq_refl eq_refl eq_refl).
Defined.

Lemma createCache_then_sync_witness :
  exists s1,
    Scenario.createCache "artifact-hash" "def456"
      (Store.start (Job.indexed [Scenario.artifact_record] Scenario.resolved)
         (Scenario.stored_with Scenario.artifact_record))
    = (Fulfilled Scenario.second_record, s1)
    /\ fst (Scenario.syncCache s1) = Fulfilled tt
    /\ Job.job (snd (Scenario.syncCache s1)) = Job.job s1.
Proof.
  assert (Job.ordinary_keys ([Scenario.artifact_record] ++ [Scenario.second_record]))
    as Hkeys by (repeat constructor).
  exact (createCache_then_sync Store.machine "artifact-hash" "def456"
           (Job.indexed [Scenario.artifact_record] Scenario.resolved)
           (Scenario.stored_with Scenario.artifact_record)
           (Scenario.stored_rows [Scenario.artifact_record; Scenario.second_record] 3)
           (Scenario.stored_rows [Scenario.artifact_record; Scenario.second_record] 3)
           [] [Scenario.artifact_record] Scenario.second_record
           eq_refl eq_refl ltac:(vm_compute; reflexivity) ltac:(vm_compute; reflexivity)
           Hkeys).
Defined.

Lemma index_shape_is_kept_witness :
  [Scenario.artifact_record] <> []
  /\ Forall (fun x => ProcessCache.key x = "artifact-hash") [Scenario.artifact_record]
  /\ JsObject.inherited "artifact-hash" = false.
Proof.
  exact (proj1
           (index_shape_is_kept Store.processManager Store.machine Store.idle
              [Job.Load; Job.CreateCache "artifact-hash" "abc123"]
              "build" "compile" "ci-1" Store.empty
              "artifact-hash" [Scenario.artifact_record] 1 Scenario.artifact_record
              (fun j w Hj => conj Hj Hj))
           ltac:(vm_compute; reflexivity)).
Defined.

Lemma createCache_prototype_key_witness :
  fst (Job.createCache Store.machine "constructor" "x"
         (Job.exec_all Store.processManager Store.machine Store.idle [Job.Load]
            Scenario.fresh))
  = Pending.
Proof.
  unfold Scenario.fresh, Store.start.
  rewrite (createCache_prototype_key Store.processManager Store.machine Store.idle
             [Job.Load] "build" "compile" "ci-1" "constructor" "x" Store.empty
             (Scenario.stored_with Scenario.constructor_record)
             Scenario.constructor_record
             (fun j w Hj => conj Hj Hj) ltac:(vm_compute; reflexivity) eq_refl).
  reflexivity.
Defined.

Lemma loaded_is_final_witness :
  Job.loaded
    (Job.job
       (Job.exec_all Store.processManager Store.machine Store.idle
          [Job.Load; Job.CreateCache "artifact-hash" "def456"; Job.SyncCache; Job.Load]
          Scenario.resumed))
  = true.
Proof.
  exact (proj1
           (loaded_is_final Store.processManager Store.machine Store.idle
              [Job.Load; Job.CreateCache "artifact-hash" "def456"; Job.SyncCache; Job.Load]
              Scenario.resumed eq_refl)).
Defined.

Lemma load_ignores_leftovers_witness :
  fst (Scenario.load
         (Store.start
            (Job.set_processJob None
               (Job.set_process
                  (Some {| Store.process_id := 7; Store.process_name := "stale" |})
                  (Job.new "build" "compile" "ci-1")))
            Store.empty))
  = fst (Scenario.load Scenario.fresh).
Proof.
  exact (proj1
           (load_ignores_leftovers Store.processManager Store.machine Store.idle
              (Job.new "build" "compile" "ci-1") Store.empty []
              (Some {| Store.process_id := 7; Store.process_name := "stale" |}) None
              eq_refl)).
Defined.


Lemma create_writes_supplied_or_default_witness :
  ProcessCache.Build 2 0 0 "" "" "def456" 0 0
  = ProcessCache.Build
      (id_or [ ("id", ProcessCache.VInt 0); ("value", ProcessCache.VStr "def456") ] 2)
      (int_or [ ("id", ProcessCache.VInt 0); ("value", ProcessCache.VStr "def456") ]
         "process" 0)
      (int_or [ ("id", ProcessCache.VInt 0); ("value", ProcessCache.VStr "def456") ]
         "job" 0)
      (str_or [ ("id", ProcessCache.VInt 0); ("value", ProcessCache.VStr "def456") ]
         "machine" "")
      (str_or [ ("id", ProcessCache.VInt 0); ("value", ProcessCache.VStr "def456") ]
         "key" "")
      (str_or [ ("id", ProcessCache.VInt 0); ("value", ProcessCache.VStr "def456") ]
         "value" "")
      (int_or [ ("id", ProcessCache.VInt 0); ("value", ProcessCache.VStr "def456") ]
         "createdAt" 0)
      (int_or [ ("id", ProcessCache.VInt 0); ("value", ProcessCache.VStr "def456") ]
         "updatedAt" 0).
Proof.
  exact (create_writes_supplied_or_default [Scenario.artifact_record] 0 2
           [ ("id", ProcessCache.VInt 0); ("value", ProcessCache.VStr "def456") ]
           (ProcessCache.Build 2 0 0 "" "" "def456" 0 0) eq_refl).
Defined.

Lemma create_keeps_ids_unique_witness :
  (ProcessCache.id Scenario.second_record ∉ map ProcessCache.id [Scenario.artifact_record])
  /\ NoDup (map ProcessCache.id ([Scenario.artifact_record] ++ [Scenario.second_record])).
Proof.
  exact (create_keeps_ids_unique [Scenario.artifact_record] 0 2
           [ ("process", ProcessCache.VInt 1); ("job", ProcessCache.VInt 1);
             ("machine", ProcessCache.VStr "ci-1");
             ("key", ProcessCache.VStr "artifact-hash");
             ("value", ProcessCache.VStr "def456") ]
           Scenario.second_record (NoDup_singleton 1) eq_refl).
Defined.

Lemma create_looks_at_ids_only_witness :
  ProcessCache.create ProcessCache.ProcessCacheAttributeDefinition ProcessCache.init_options
    [Scenario.artifact_record] 0 2
    [ ("key", ProcessCache.VStr "artifact-hash"); ("value", ProcessCache.VStr "abc123") ]
  = ProcessCache.create ProcessCache.ProcessCacheAttributeDefinition
      ProcessCache.init_options
      [ProcessCache.Build 1 9 9 "ci-2" "other" "zzz" 5 5] 1700000000 2
      [ ("key", ProcessCache.VStr "artifact-hash"); ("value", ProcessCache.VStr "abc123") ].
Proof.
  exact (create_looks_at_ids_only [Scenario.artifact_record]
           [ProcessCache.Build 1 9 9 "ci-2" "other" "zzz" 5 5] 0 1700000000 2
           [ ("key", ProcessCache.VStr "artifact-hash");
             ("value", ProcessCache.VStr "abc123") ] eq_refl).
Defined.

Lemma load_prototype_key_runs_no_hook_witness :
  Scenario.load Scenario.constructor_restarted
  = (Pending,
     {| Job.job :=
          Job.indexed []
            (Job.set_processJob
               (Some {| Store.job_id := 1; Store.job_process := 1;
                        Store.job_name := "compile" |})
               (Job.set_process
                  (Some {| Store.process_id := 1; Store.process_name := "build" |})
                  (Job.new "build" "compile" "ci-1")));
        Job.world := Scenario.stored_with Scenario.constructor_record;
        Job.trace := [] ++ [Job.ProcessManagerLoad; Job.MachineLoad;
                            Job.CreateProcess "build"; Job.CreateJob "compile";
                            Job.MachineHasCache; Job.MachineGetFullCache] |})
  /\ Job.count Job.is_hook
       [Job.ProcessManagerLoad; Job.MachineLoad; Job.CreateProcess "build";
        Job.CreateJob "compile"; Job.MachineHasCache; Job.MachineGetFullCache] = 0%nat
  /\ Job.loaded (Job.job (snd (Scenario.load Scenario.constructor_restarted))) = false.
Proof.
  exact (load_prototype_key_runs_no_hook Store.processManager Store.machine Store.idle
           (Job.new "build" "compile" "ci-1")
           (Scenario.stored_with Scenario.constructor_record) _ _ _ _ _ _ [] _ _
           [] [] Scenario.constructor_record
           eq_refl eq_refl eq_refl eq_refl eq_refl eq_refl eq_refl
           ltac:(constructor) eq_refl).
Defined.

Lemma load_failure_is_silent_witness :
  Scenario.load (Scenario.failing_after 3)
  = (Pending,
     {| Job.job := Job.set_process
                     (Some {| Store.process_id := 1; Store.process_name := "build" |})
                     (Job.new "build" "compile" "ci-1");
        Job.world := Job.world (snd (Scenario.load (Scenario.failing_after 3)));
        Job.trace := [] ++ [Job.ProcessManagerLoad; Job.MachineLoad;
                            Job.CreateProcess "build"; Job.CreateJob "compile"] |})
  /\ Job.loaded (Job.job (snd (Scenario.load (Scenario.failing_after 3)))) = false.
Proof.
  exact (proj1 (proj2 (proj2 (proj2 (proj2
           (load_failure_is_silent Store.processManager Store.machine Store.idle
              (Job.new "build" "compile" "ci-1")
              (Store.set_outage (Some 3%nat) Store.empty) [] eq_refl)))))
           _ _ _ _ (Rejected (Failure "database unreachable")) _
           eq_refl eq_refl eq_refl eq_refl eq_refl).
Defined.

Lemma load_runs_one_hook_witness :
  ((forall k,
      Job.cacheTree
        (Job.indexed [Scenario.artifact_record]
           (Job.set_processJob
              (Some {| Store.job_id := 1; Store.job_process := 1;
                       Store.job_name := "compile" |})
              (Job.set_process
                 (Some {| Store.process_id := 1; Store.process_name := "build" |})
                 (Job.new "build" "compile" "ci-1")))) !! k
      = match Job.bucket_of [Scenario.artifact_record] k with [] => None | b => Some b end)
   /\ (forall i,
         Job.cacheResults
           (Job.indexed [Scenario.artifact_record]
              (Job.set_processJob
                 (Some {| Store.job_id := 1; Store.job_process := 1;
                          Store.job_name := "compile" |})
                 (Job.set_process
                    (Some {| Store.process_id := 1; Store.process_name := "build" |})
                    (Job.new "build" "compile" "ci-1")))) !! i
         = last (Job.with_id [Scenario.artifact_record] i))
   /\ Scenario.load Scenario.restarted
      = (Fulfilled tt,
         {| Job.job :=
              Job.set_loaded true
                (Job.indexed [Scenario.artifact_record]
                   (Job.set_processJob
                      (Some {| Store.job_id := 1; Store.job_process := 1;
                               Store.job_name := "compile" |})
                      (Job.set_process
                         (Some {| Store.process_id := 1; Store.process_name := "build" |})
                         (Job.new "build" "compile" "ci-1"))));
            Job.world := Scenario.stored_with Scenario.artifact_record;
            Job.trace := ([] ++ [Job.ProcessManagerLoad; Job.MachineLoad;
                                 Job.CreateProcess "build"; Job.CreateJob "compile";
                                 Job.MachineHasCache])
                         ++ [Job.MachineGetFullCache; Job.OnCacheExist] |}))
  /\ Scenario.load Scenario.fresh
     = (Fulfilled tt,
        {| Job.job :=
             Job.set_loaded true
               (Job.set_processJob
                  (Some {| Store.job_id := 1; Store.job_process := 1;
                           Store.job_name := "compile" |})
                  (Job.set_process
                     (Some {| Store.process_id := 1; Store.process_name := "build" |})
                     (Job.new "build" "compile" "ci-1")));
           Job.world := Job.world Scenario.ready;
           Job.trace := ([] ++ [Job.ProcessManagerLoad; Job.MachineLoad;
                                Job.CreateProcess "build"; Job.CreateJob "compile";
                                Job.MachineHasCache])
                        ++ [Job.OnCacheEmpty] |}).
Proof.
  split.
  - exact (proj1 (load_runs_one_hook Store.processManager Store.machine Store.idle
                    (Job.new "build" "compile" "ci-1")
                    (Scenario.stored_with Scenario.artifact_record) []
                    _ _ _ _ _ _ _ true
                    eq_refl eq_refl eq_refl eq_refl eq_refl eq_refl)
             eq_refl [Scenario.artifact_record] _ (Fulfilled tt) _ _
             eq_refl ltac:(repeat constructor) eq_refl).
  - exact (proj2 (proj2
      (proj2 (load_runs_one_hook Store.processManager Store.machine Store.idle
                (Job.new "build" "compile" "ci-1") Store.empty [] _ _ _ _ _ _ _ false
                eq_refl eq_refl eq_refl eq_refl eq_refl eq_refl)
         eq_refl (Fulfilled tt) _ _ eq_refl))).
Defined.

End CoverageRuns.
